(** * servicemarq: block grouping, entity pairing, dual-store writes and
      name disambiguation

    A shallow embedding of
    - [post_processing/info_extraction/extractors.py]
      ([BlockExtractor], [LineInfoExtractor]) and
    - [post_processing/name_disambiguation/external_api.py] ([API]).

    Python [str] is [string] (a sequence of one-byte characters), Python
    [int] is [Z], [None] is [None], a raised exception is [Raise].  The
    first half of the file holds the definitions, the second half the
    lemmas and theorems about them. *)

From Stdlib Require Import ZArith List Ascii String Bool Lia Sorted Permutation.
From stdpp Require Import base option list gmap strings.
Import ListNotations.

Open Scope string_scope.
Open Scope list_scope.
Open Scope Z_scope.

(* ===================================================================== *)
(** * Part I: definitions *)
(* ===================================================================== *)

(** ** Python string primitives used by the sources *)

Module PyStr.

(** [s.split(sep)] for a one-character separator: every occurrence of
    [sep] cuts, empty pieces are kept, the result is never empty. *)
Fixpoint split (sep : ascii) (s : string) : list string :=
  match s with
  | EmptyString => [EmptyString]
  | String c rest =>
      if Ascii.eqb c sep then EmptyString :: split sep rest
      else match split sep rest with
           | [] => [String c EmptyString]
           | tok :: toks => String c tok :: toks
           end
  end.

(** [sep.join(parts)]. *)
Fixpoint join (sep : string) (parts : list string) : string :=
  match parts with
  | [] => EmptyString
  | [p] => p
  | p :: ps => (p ++ sep ++ join sep ps)%string
  end.

(** [c.lower()] on the ASCII range: [A-Z] is mapped to [a-z]. *)
Definition lower_char (c : ascii) : ascii :=
  let n := nat_of_ascii c in
  if (Nat.leb 65 n && Nat.leb n 90)%bool then ascii_of_nat (n + 32) else c.

(** [s.lower()]. *)
Fixpoint lower (s : string) : string :=
  match s with
  | EmptyString => EmptyString
  | String c rest => String (lower_char c) (lower rest)
  end.

(** Truthiness of an optional string: [None] and [''] are falsy. *)
Definition truthy (o : option string) : bool :=
  match o with
  | Some s => negb (String.eqb s "")
  | None => false
  end.

(** [l[0:n]] on a list, for any Python integer [n] (a negative bound
    counts from the end). *)
Definition slice_to {A} (n : Z) (l : list A) : list A :=
  if n <? 0 then firstn (Z.to_nat (Z.of_nat (List.length l) + n)) l
  else firstn (Z.to_nat n) l.

End PyStr.

(** ** Lines *)

(** Modelled from the spec: the [Line] class of
    [info_extraction/utils.py] (built from one [PageLines] row), with the
    fields of the data model and the two prediction columns the code
    reads.  A [Line] object is created once per row, so the row [id]
    stands for the identity of the object when it is used as a
    dictionary key. *)
Record Line := mkLine {
  id : Z;
  page_id : Z;
  num : Z;
  indent : Z;
  text : string;
  label : string;
  dl_prediction : string;
  svm_prediction : string
}.

(** [line.label if extract_type == 'gold' else line.svm_prediction if
    extract_type == 'svm_prediction' else line.dl_prediction] *)
Definition active_label (extract_type : string) (line : Line) : string :=
  if String.eqb extract_type "gold" then label line
  else if String.eqb extract_type "svm_prediction" then svm_prediction line
  else dl_prediction line.

(** ** Insertion-ordered dictionaries keyed by [Line] objects *)

Module LineDict.

Definition t := list (Line * list Line).

Definition same_line (a b : Line) : bool := Z.eqb (id a) (id b).

Fixpoint get (k : Line) (m : t) : option (list Line) :=
  match m with
  | [] => None
  | (k', v) :: m' => if same_line k' k then Some v else get k m'
  end.

(** [m[k] = v]: an existing key keeps its place, a new key goes last. *)
Fixpoint set (k : Line) (v : list Line) (m : t) : t :=
  match m with
  | [] => [(k, v)]
  | (k', v') :: m' =>
      if same_line k' k then (k', v) :: m' else (k', v') :: set k v m'
  end.

(** [m[k]] on a [defaultdict(list)]: a missing key is inserted with
    [[]] by the read itself. *)
Definition getitem_default (k : Line) (m : t) : list Line * t :=
  match get k m with
  | Some v => (v, m)
  | None => ([], set k [] m)
  end.

Definition keys (m : t) : list Line := map fst m.

Definition has_key (k : Line) (m : t) : bool :=
  match get k m with Some _ => true | None => false end.

End LineDict.

(** ** BlockExtractor *)

Module BlockExtractor.

(** Modelled from the spec: the two tables the line store is read
    from.  [ConferencePages] rows are [(id, conf_id)]; the table order is
    the order an unordered [SELECT] returns. *)
Record LineDb := mkLineDb {
  ConferencePages : list (Z * Z);
  PageLines : list Line
}.

(** Stable insertion sort, for [ORDER BY id]. *)
Fixpoint insert_by_id (l : Line) (sorted : list Line) : list Line :=
  match sorted with
  | [] => [l]
  | x :: rest =>
      if id l <? id x then l :: x :: rest else x :: insert_by_id l rest
  end.

Definition order_by_id (ls : list Line) : list Line :=
  fold_right insert_by_id [] ls.

(** [SELECT * FROM PageLines WHERE page_id=? AND line_text!='' AND
    <field>!='Undefined' ORDER BY id] *)
Definition select_page_lines (field : Line -> string) (db : LineDb)
    (pid : Z) : list Line :=
  order_by_id
    (List.filter
       (fun l => (Z.eqb (page_id l) pid
                  && negb (String.eqb (text l) "")
                  && negb (String.eqb (field l) "Undefined"))%bool)
       (PageLines db)).

(** [SELECT id FROM ConferencePages WHERE conf_id=...] *)
Definition select_page_ids (db : LineDb) (conf_id : Z) : list Z :=
  map fst (List.filter (fun p => Z.eqb (snd p) conf_id) (ConferencePages db)).

(** The body of the [for page_id in page_ids] loop of
    [get_relevant_lines].  The first [if] stands alone; the [else] belongs
    to the second [if]/[elif] chain, so it is also taken in the
    ['svm_prediction'] mode. *)
Fixpoint get_relevant_lines_loop (extract_type : string) (db : LineDb)
    (page_ids : list Z) (all_lines : list Line) : list Line :=
  match page_ids with
  | [] => all_lines
  | pid :: rest =>
      let lines_svm :=
        if String.eqb extract_type "svm_prediction"
        then Some (select_page_lines svm_prediction db pid) else None in
      if String.eqb extract_type "dl_prediction" then
        get_relevant_lines_loop extract_type db rest
          (all_lines ++ select_page_lines dl_prediction db pid)
      else if String.eqb extract_type "gold" then
        get_relevant_lines_loop extract_type db rest
          (all_lines ++ select_page_lines label db pid)
      else (* Undefined extraction type *) []
  end.

Definition get_relevant_lines (extract_type : string) (db : LineDb)
    (conf_id : Z) : list Line :=
  get_relevant_lines_loop extract_type db (select_page_ids db conf_id) [].

Section Grouping.

Variable extract_type : string.
Variables indent_diff_thresh lnum_diff_thresh : Z.

(** The nested function [within_threshold(line, prev_line, rl_line)]. *)
Definition within_threshold (line prev_line rl_line : Line) : bool :=
  let indent_thresh :=
    Z.abs (indent line - indent rl_line) <? indent_diff_thresh in
  let lnum_thresh :=
    Z.abs (num line - num prev_line) <? lnum_diff_thresh in
  (indent_thresh && lnum_thresh)%bool.

(** The local variables of the loop of [get_relevant_blocks]. *)
Record GroupState := mkGroupState {
  mapping : LineDict.t;
  role_label : option Line;
  prev_labelled : option Line
}.

Definition group_init : GroupState :=
  {| mapping := []; role_label := None; prev_labelled := None |}.

(** One iteration of [for line in relevant_lines].  [role_label] and
    [prev_labelled] are assigned together, so [prev_labelled] is a line
    whenever [role_label] is. *)
Definition group_step (st : GroupState) (line : Line) : GroupState :=
  if String.eqb (active_label extract_type line) "Role-Label" then
    {| mapping := mapping st;
       role_label := Some line;
       prev_labelled := Some line |}
  else
    match role_label st, prev_labelled st with
    | Some rl, Some prev =>
        if within_threshold line prev rl then
          let '(v, m1) := LineDict.getitem_default rl (mapping st) in
          let m2 :=
            match v with
            | _ :: _ => LineDict.set rl (v ++ [line]) m1
            | [] => LineDict.set rl [line] m1
            end in
          {| mapping := m2; role_label := Some rl; prev_labelled := Some line |}
        else st
    | _, _ => st
    end.

Definition group_lines (relevant_lines : list Line) : GroupState :=
  fold_left group_step relevant_lines group_init.

(** [get_relevant_blocks], on the lines [get_relevant_lines] returned. *)
Definition group (relevant_lines : list Line) : LineDict.t :=
  mapping (group_lines relevant_lines).

(** The acceptance decisions alone, without the dictionary: the pairs
    [(role label, accepted content line)] in the order of acceptance. *)
Fixpoint accepted_from (rl : option Line) (prev : option Line)
    (lines : list Line) : list (Line * Line) :=
  match lines with
  | [] => []
  | line :: rest =>
      if String.eqb (active_label extract_type line) "Role-Label" then
        accepted_from (Some line) (Some line) rest
      else
        match rl, prev with
        | Some r, Some p =>
            if within_threshold line p r
            then (r, line) :: accepted_from rl (Some line) rest
            else accepted_from rl prev rest
        | _, _ => accepted_from rl prev rest
        end
  end.

Definition accepted (lines : list Line) : list (Line * Line) :=
  accepted_from None None lines.

(** The content lines accepted under the role label [k]. *)
Definition accepted_under (k : Line) (evs : list (Line * Line)) : list Line :=
  map snd (List.filter (fun e => LineDict.same_line (fst e) k) evs).

End Grouping.

(** The entry a dictionary holds for the accepted lines [v]: none when
    there are none. *)
Definition entry_of (v : list Line) : option (list Line) :=
  match v with [] => None | _ => Some v end.

(** What holds of every block of the result relative to the input
    [all]: the key is a role-label line of the input, the content is not
    empty and consists of input lines that are not role labels. *)
Definition block_ok (extract_type : string) (all : list Line) (kv : Line * list Line) : Prop :=
  (In (fst kv) all /\ active_label extract_type (fst kv) = "Role-Label")
  /\ (snd kv <> [] /\
      Forall (fun l => In l all /\
                       active_label extract_type l <> "Role-Label") (snd kv)).

Definition get_relevant_blocks (extract_type : string) (db : LineDb)
    (conf_id : Z) (indent_diff_thresh lnum_diff_thresh : Z) : LineDict.t :=
  group extract_type indent_diff_thresh lnum_diff_thresh
    (get_relevant_lines extract_type db conf_id).

End BlockExtractor.

(** ** LineInfoExtractor *)

Module LineInfoExtractor.

(** *** The relational store *)

(** The statements the extractor sends through [self.cur.execute]. *)
Inductive SqlStmt :=
| InsertPerson (name : string)
| SelectPersonId (name : string)
| InsertOrganization (name : string)
| SelectOrganizationId (name : string)
| InsertPersonOrganization (org_id person_id : Z)
| InsertPersonRole (role_type : string) (conf_id person_id : Z)
| UpdateOrganizationLocation (loc : string) (org_id : Z).

(** Modelled from the spec: the tables of the relational store, whose
    schema is not part of the sources.  [Persons] and [Organizations] have
    an integer key and a unique [name], compared as exact strings; the two
    relation tables suppress duplicate rows. *)
Record SqlDb := mkSqlDb {
  Persons : list (Z * string);
  Organizations : list (Z * string * option string);
  PersonOrganization : list (Z * Z);
  PersonRole : list (string * Z * Z)
}.

Definition empty_db : SqlDb :=
  {| Persons := []; Organizations := [];
     PersonOrganization := []; PersonRole := [] |}.

(** The key given to a new row: one more than the largest key in use. *)
Definition next_id (ids : list Z) : Z := 1 + fold_right Z.max 0 ids.

Definition person_id_of (name : string) (rows : list (Z * string)) : option Z :=
  fst <$> List.find (fun r => String.eqb (snd r) name) rows.

Definition org_id_of (name : string)
    (rows : list (Z * string * option string)) : option Z :=
  (fun r => fst (fst r)) <$> List.find (fun r => String.eqb (snd (fst r)) name) rows.

Definition pair_eqb (a b : Z * Z) : bool :=
  (Z.eqb (fst a) (fst b) && Z.eqb (snd a) (snd b))%bool.

Definition role_eqb (a b : string * Z * Z) : bool :=
  (String.eqb (fst (fst a)) (fst (fst b))
   && Z.eqb (snd (fst a)) (snd (fst b)) && Z.eqb (snd a) (snd b))%bool.

(** What a statement does to the tables, and the first column of the
    first row it returns ([fetchone()], [None] without a row). *)
Definition sql_apply (q : SqlStmt) (db : SqlDb) : SqlDb * option Z :=
  match q with
  | InsertPerson name =>
      match person_id_of name (Persons db) with
      | Some _ => (db, None)
      | None =>
          ({| Persons := Persons db ++ [(next_id (map fst (Persons db)), name)];
              Organizations := Organizations db;
              PersonOrganization := PersonOrganization db;
              PersonRole := PersonRole db |}, None)
      end
  | SelectPersonId name => (db, person_id_of name (Persons db))
  | InsertOrganization name =>
      match org_id_of name (Organizations db) with
      | Some _ => (db, None)
      | None =>
          ({| Persons := Persons db;
              Organizations :=
                Organizations db ++
                [(next_id (map (fun r => fst (fst r)) (Organizations db)),
                  name, None)];
              PersonOrganization := PersonOrganization db;
              PersonRole := PersonRole db |}, None)
      end
  | SelectOrganizationId name => (db, org_id_of name (Organizations db))
  | InsertPersonOrganization oid pid =>
      if existsb (pair_eqb (oid, pid)) (PersonOrganization db) then (db, None)
      else
        ({| Persons := Persons db;
            Organizations := Organizations db;
            PersonOrganization := PersonOrganization db ++ [(oid, pid)];
            PersonRole := PersonRole db |}, None)
  | InsertPersonRole role conf pid =>
      if existsb (role_eqb (role, conf, pid)) (PersonRole db) then (db, None)
      else
        ({| Persons := Persons db;
            Organizations := Organizations db;
            PersonOrganization := PersonOrganization db;
            PersonRole := PersonRole db ++ [(role, conf, pid)] |}, None)
  | UpdateOrganizationLocation loc oid =>
      ({| Persons := Persons db;
          Organizations :=
            map (fun r => if Z.eqb (fst (fst r)) oid
                          then (fst r, Some loc) else r) (Organizations db);
          PersonOrganization := PersonOrganization db;
          PersonRole := PersonRole db |}, None)
  end.

(** *** The graph store *)

(** The transaction functions of [TxFn], applied to their arguments. *)
Inductive GraphTx :=
| TxFn_create_person (name : string)
| TxFn_create_organization (name : string)
| TxFn_create_conference (n4j_attrs : string)
| TxFn_create_affiliation_rel (n4j_pid n4j_oid : Z)
| TxFn_create_role_rel (n4j_pid : Z) (role : string) (n4j_conf_id : Z)
| TxFn_update_org_loc (n4j_oid : Z) (loc : string).

Record Session := mkSession { closed : bool }.

(** *** The extractor object *)

Record Conference := mkConference {
  conf_id : Z;
  n4j_attrs : string;
  blocks : LineDict.t
}.

Inductive Exn :=
| SqliteError (q : SqlStmt)
| TypeError
| AttributeError
| AssertionError.

(** The attributes of a [LineInfoExtractor] that change, together with
    the two stores behind [self.cur] and [self.session]: [sql_log] is the
    sequence of statements executed, [graph] the sequence of write
    transactions run. *)
Record Extractor := mkExtractor {
  cur : SqlDb;
  sql_log : list SqlStmt;
  driver : bool;
  session : option Session;
  graph : list GraphTx;
  conference : option Conference;
  sql_conf_id : option Z;
  n4j_conf_id : option Z
}.

Definition new_extractor (db : SqlDb) (drv : bool) : Extractor :=
  {| cur := db; sql_log := []; driver := drv; session := None; graph := [];
     conference := None; sql_conf_id := None; n4j_conf_id := None |}.

Definition with_cur (db : SqlDb) (q : SqlStmt) (e : Extractor) : Extractor :=
  {| cur := db; sql_log := sql_log e ++ [q]; driver := driver e;
     session := session e; graph := graph e; conference := conference e;
     sql_conf_id := sql_conf_id e; n4j_conf_id := n4j_conf_id e |}.

Definition with_graph (g : list GraphTx) (e : Extractor) : Extractor :=
  {| cur := cur e; sql_log := sql_log e; driver := driver e;
     session := session e; graph := g; conference := conference e;
     sql_conf_id := sql_conf_id e; n4j_conf_id := n4j_conf_id e |}.

Definition with_session (s : option Session) (e : Extractor) : Extractor :=
  {| cur := cur e; sql_log := sql_log e; driver := driver e;
     session := s; graph := graph e; conference := conference e;
     sql_conf_id := sql_conf_id e; n4j_conf_id := n4j_conf_id e |}.

Definition with_n4j_conf_id (i : Z) (e : Extractor) : Extractor :=
  {| cur := cur e; sql_log := sql_log e; driver := driver e;
     session := session e; graph := graph e; conference := conference e;
     sql_conf_id := sql_conf_id e; n4j_conf_id := Some i |}.

Definition with_conference (c : Conference) (e : Extractor) : Extractor :=
  {| cur := cur e; sql_log := sql_log e; driver := driver e;
     session := session e; graph := graph e; conference := Some c;
     sql_conf_id := Some (conf_id c); n4j_conf_id := n4j_conf_id e |}.

(** *** Methods: a state monad with exceptions *)

Inductive Result (A : Type) :=
| Ok (a : A)
| Raise (e : Exn).
Arguments Ok {A} a.
Arguments Raise {A} e.

Definition M (A : Type) : Type := Extractor -> Result A * Extractor.

Definition ret {A} (a : A) : M A := fun e => (Ok a, e).

Definition raise {A} (x : Exn) : M A := fun e => (Raise x, e).

Definition bind {A B} (c : M A) (k : A -> M B) : M B :=
  fun e =>
    match c e with
    | (Ok a, e') => k a e'
    | (Raise x, e') => (Raise x, e')
    end.

Definition gets {A} (f : Extractor -> A) : M A := fun e => (Ok (f e), e).

Definition modify (f : Extractor -> Extractor) : M unit :=
  fun e => (Ok tt, f e).

Declare Scope py_scope.
Delimit Scope py_scope with py.
Notation "x <- c ;; k" := (bind c (fun x => k))
  (at level 100, c at next level, right associativity) : py_scope.
Notation "c ;;; k" := (bind c (fun _ => k))
  (at level 100, right associativity) : py_scope.
Open Scope py_scope.

(** [for x in xs: body(x)] *)
Fixpoint for_each {A} (xs : list A) (body : A -> M unit) : M unit :=
  match xs with
  | [] => ret tt
  | x :: rest => body x ;;; for_each rest body
  end.

Definition is_ok {A} (r : Result A * Extractor) : bool :=
  match r with (Ok _, _) => true | (Raise _, _) => false end.

Section Methods.

(** [self.extract_type]. *)
Variable extract_type : string.

(** The Flair tagger on one text fragment: [Sentence(part)],
    [predict], then [get_spans('ner')], as pairs [(entity.text,
    entity.tag)] in span order. *)
Variable tagger : string -> list (string * string).

(** Which statements the relational engine rejects
    ([self.cur.execute] raises). *)
Variable sql_fails : SqlStmt -> bool.

(** What a write transaction returns, given the transactions already
    run in the session. *)
Variable tx_result : list GraphTx -> GraphTx -> Z.

(** [self.cur.execute(q)], with [.fetchone()] for a [SELECT]. *)
Definition execute (q : SqlStmt) : M (option Z) :=
  fun e =>
    if sql_fails q then (Raise (SqliteError q), e)
    else let '(db, row) := sql_apply q (cur e) in (Ok row, with_cur db q e).

(** [row[0]] on the result of [fetchone()]. *)
Definition first_column (row : option Z) : M Z :=
  match row with
  | Some v => ret v
  | None => raise TypeError
  end.

(** [self.session.write_transaction(fn, *args)]. *)
Definition write_transaction (tx : GraphTx) : M Z :=
  fun e =>
    match session e with
    | Some _ => (Ok (tx_result (graph e) tx), with_graph (graph e ++ [tx]) e)
    | None => (Raise AttributeError, e)
    end.

Definition session_present : M bool :=
  gets (fun e => match session e with Some _ => true | None => false end).

(** [get_line_parts_flair]: the [defaultdict(lambda: None)] is a finite
    map, a missing key reads as [None]. *)
Definition tag_spans (line_parts : gmap string string)
    (spans : list (string * string)) : gmap string string :=
  fold_left (fun lp entity => <[snd entity := fst entity]> lp) spans line_parts.

Definition get_line_parts_flair (line : Line) : gmap string string :=
  fold_left (fun lp part => tag_spans lp (tagger part))
    (PyStr.split "," (text line)) ∅.

Definition add_person (person : string) : M (Z * Z) :=
  execute (InsertPerson person) ;;;
  row <- execute (SelectPersonId person) ;;
  sql_pid <- first_column row ;;
  has_session <- session_present ;;
  if has_session : bool then
    n4j_pid <- write_transaction (TxFn_create_person person) ;;
    ret (n4j_pid, sql_pid)
  else ret (-1, sql_pid).

Definition add_organization (org : string) : M (Z * Z) :=
  execute (InsertOrganization org) ;;;
  row <- execute (SelectOrganizationId org) ;;
  sql_oid <- first_column row ;;
  has_session <- session_present ;;
  if has_session : bool then
    n4j_oid <- write_transaction (TxFn_create_organization org) ;;
    ret (n4j_oid, sql_oid)
  else ret (-1, sql_oid).

Definition add_conference (c : Conference) : M Z :=
  write_transaction (TxFn_create_conference (n4j_attrs c)).

(** The graph transaction is given [person_ids[0]] and [org_ids[1]]. *)
Definition add_affiliation_rel (person_ids org_ids : Z * Z) : M unit :=
  execute (InsertPersonOrganization (snd org_ids) (snd person_ids)) ;;;
  has_session <- session_present ;;
  if has_session : bool then
    write_transaction (TxFn_create_affiliation_rel (fst person_ids) (snd org_ids)) ;;;
    ret tt
  else ret tt.

(** An attribute that was never assigned raises [AttributeError]. *)
Definition attribute {A} (f : Extractor -> option A) : M A :=
  fun e => match f e with
           | Some a => (Ok a, e)
           | None => (Raise AttributeError, e)
           end.

Definition add_role_rel (person_ids : Z * Z) (role : string) : M unit :=
  conf <- attribute sql_conf_id ;;
  execute (InsertPersonRole role conf (snd person_ids)) ;;;
  has_session <- session_present ;;
  if has_session : bool then
    n4j_conf <- attribute n4j_conf_id ;;
    write_transaction (TxFn_create_role_rel (fst person_ids) role n4j_conf) ;;;
    ret tt
  else ret tt.

Definition update_org_loc (org_ids : Z * Z) (loc : string) : M unit :=
  execute (UpdateOrganizationLocation loc (snd org_ids)) ;;;
  has_session <- session_present ;;
  if has_session : bool then
    write_transaction (TxFn_update_org_loc (fst org_ids) loc) ;;; ret tt
  else ret tt.

(** [if line_parts[tag]: body(line_parts[tag])]; the value bound by the
    body is kept for the statements after the [if]. *)
Definition if_tag {A} (line_parts : gmap string string) (tag : string)
    (body : string -> M A) : M (option A) :=
  match line_parts !! tag with
  | Some v =>
      if PyStr.truthy (Some v) then a <- body v ;; ret (Some a)
      else ret None
  | None => ret None
  end.

Definition process_complex (line role_label : Line) : M unit :=
  let line_parts := get_line_parts_flair line in
  person_ids <- if_tag line_parts "PER" (fun per =>
    ids <- add_person per ;;
    add_role_rel ids (text role_label) ;;;
    ret ids) ;;
  org_ids <- if_tag line_parts "ORG" (fun org =>
    ids <- add_organization org ;;
    if_tag line_parts "LOC" (fun loc => update_org_loc ids loc) ;;;
    ret ids) ;;
  match person_ids, org_ids with
  | Some pids, Some oids => add_affiliation_rel pids oids
  | _, _ => ret tt
  end.

Definition process_pair (person affiliation role_label : Line) : M unit :=
  person_ids <- add_person (text person) ;;
  add_role_rel person_ids (text role_label) ;;;
  let line_parts := get_line_parts_flair affiliation in
  if_tag line_parts "ORG" (fun org =>
    org_ids <- add_organization org ;;
    if_tag line_parts "LOC" (fun loc => update_org_loc org_ids loc) ;;;
    add_affiliation_rel person_ids org_ids) ;;;
  ret tt.

(** The pending lines [u_person] and [u_aff] of [process_block]. *)
Definition Pending : Type := option Line * option Line.

(** One iteration of [for cur_line in content_lines]. *)
Definition process_line (role_label : Line) (pending : Pending)
    (cur_line : Line) : M Pending :=
  let '(u_person, u_aff) := pending in
  let label := active_label extract_type cur_line in
  if String.eqb label "Complex" then
    process_complex cur_line role_label ;;; ret (u_person, u_aff)
  else if String.eqb label "Person" then
    match u_aff with
    | Some aff =>
        process_pair cur_line aff role_label ;;; ret (None, None)
    | None => ret (Some cur_line, u_aff)
    end
  else if String.eqb label "Affiliation" then
    match u_person with
    | Some person =>
        process_pair person cur_line role_label ;;; ret (None, None)
    | None => ret (u_person, Some cur_line)
    end
  else ret (u_person, u_aff).

Fixpoint process_lines (role_label : Line) (content_lines : list Line)
    (pending : Pending) : M Pending :=
  match content_lines with
  | [] => ret pending
  | cur_line :: rest =>
      pending' <- process_line role_label pending cur_line ;;
      process_lines role_label rest pending'
  end.

(** [process_block]; the value returned here is the pair
    [(u_person, u_aff)] the local variables hold when the loop ends. *)
Definition process_block (role_label : Line) (content_lines : list Line)
    : M Pending :=
  process_lines role_label content_lines (None, None).

(** The statements of [process_conference] before its loop. *)
Definition begin_conference (c : Conference) : M unit :=
  drv <- gets driver ;;
  (if drv : bool then
     modify (with_session (Some {| closed := false |})) ;;;
     n4j <- add_conference c ;;
     modify (with_n4j_conf_id n4j)
   else ret tt) ;;;
  modify (with_conference c).

(** [for rl_id, content_ids in conference.blocks.items()]. *)
Definition process_blocks (items : list (Line * list Line)) : M unit :=
  for_each items (fun item =>
    process_block (fst item) (snd item) ;;; ret tt).

(** The statements of [process_conference] after its loop. *)
Definition end_conference : M unit :=
  drv <- gets driver ;;
  if drv : bool then
    modify (with_session (Some {| closed := true |})) ;;;
    s <- gets session ;;
    match s with
    | Some {| closed := true |} => ret tt
    | _ => raise AssertionError
    end
  else ret tt.

Definition process_conference (c : Conference) : M unit :=
  begin_conference c ;;;
  process_blocks (blocks c) ;;;
  end_conference.

End Methods.

(** The key of the first row with a given name. *)
Definition id_by_name {R : Type} (key : R -> Z) (name_of : R -> string)
    (n : string) (rows : list R) : option Z :=
  key <$> List.find (fun r => String.eqb (name_of r) n) rows.

(** No statement removes a person, an organization or a relation. *)
Record db_le (db db' : SqlDb) : Prop := mk_db_le {
  le_person : forall n i,
    person_id_of n (Persons db) = Some i ->
    person_id_of n (Persons db') = Some i;
  le_org : forall n i,
    org_id_of n (Organizations db) = Some i ->
    org_id_of n (Organizations db') = Some i;
  le_aff : forall r, In r (PersonOrganization db) -> In r (PersonOrganization db');
  le_role : forall r, In r (PersonRole db) -> In r (PersonRole db')
}.

(** What a method that returns leaves behind: the statements [qs] were
    executed, nothing was removed from the store, and the session and the
    conference identifiers are the same. *)
Record extends (e e' : Extractor) (qs : list SqlStmt) : Prop := mk_extends {
  ext_log : sql_log e' = sql_log e ++ qs;
  ext_session : session e' = session e;
  ext_sql_conf : sql_conf_id e' = sql_conf_id e;
  ext_n4j_conf : n4j_conf_id e' = n4j_conf_id e;
  ext_db : db_le (cur e) (cur e')
}.

(** *** The spaCy variant of the extraction *)

Section Spacy.

(** The spaCy pipeline on a text: [res.ents] as pairs
    [(ent.string, ent.label_)]. *)
Variable spacy_nlp : string -> list (string * string).

(** The dictionary [spacy_flair_tag_map]: it has two keys. *)
Definition spacy_flair_tag_map (ent_label : string) : option string :=
  if String.eqb ent_label "PERSON" then Some "PER"
  else if String.eqb ent_label "GPE" then Some "LOC"
  else None.

(** The loop of [get_line_parts_spacy]; [spacy_flair_tag_map[ent.label_]]
    raises [KeyError] on a label that is not a key, which is [inl] of the
    label here. *)
Fixpoint spacy_loop (ents : list (string * string))
    (line_parts : gmap string string) : string + gmap string string :=
  match ents with
  | [] => inr line_parts
  | ent :: rest =>
      match spacy_flair_tag_map (snd ent) with
      | Some tag => spacy_loop rest (<[tag := fst ent]> line_parts)
      | None => inl (snd ent)
      end
  end.

Definition get_line_parts_spacy (line : Line) : string + gmap string string :=
  spacy_loop (spacy_nlp (text line)) ∅.

End Spacy.

(** *** Vocabulary for the properties of the methods *)

(** The labels [process_block] acts on; a line with another label is
    reported and skipped. *)
Definition expected_label (l : string) : bool :=
  (String.eqb l "Complex" || String.eqb l "Person"
   || String.eqb l "Affiliation")%bool.

(** The last line of a list that carries the label [lab]. *)
Definition last_labelled (extract_type lab : string) (lines : list Line)
    : option Line :=
  List.find (fun l => String.eqb (active_label extract_type l) lab) (rev lines).

(** The location recorded for an organization name. *)
Definition location_of (n : string)
    (rows : list (Z * string * option string)) : option (option string) :=
  snd <$> List.find (fun r => String.eqb (snd (fst r)) n) rows.

(** Keys and names are unique, relations hold no row twice. *)
Record wf_db (db : SqlDb) : Prop := mk_wf_db {
  wf_person_ids : List.NoDup (map fst (Persons db));
  wf_person_names : List.NoDup (map snd (Persons db));
  wf_org_ids : List.NoDup (map (fun r => fst (fst r)) (Organizations db));
  wf_org_names : List.NoDup (map (fun r => snd (fst r)) (Organizations db));
  wf_aff : List.NoDup (PersonOrganization db);
  wf_role : List.NoDup (PersonRole db)
}.

(** A method keeps the relation [R] between the state it is called in
    and the state it leaves, whether it returns or raises. *)
Definition respects (R : Extractor -> Extractor -> Prop) {A} (c : M A) : Prop :=
  forall e, R e (snd (c e)).

(** The graph side is left alone: same driver, same session, and the
    same transactions when there is no session. *)
Definition quiet (e e' : Extractor) : Prop :=
  driver e' = driver e /\ session e' = session e /\
  n4j_conf_id e' = n4j_conf_id e /\
  (session e = None -> graph e' = graph e).

End LineInfoExtractor.

(** ** API (name disambiguation) *)

Module API.

(** [editdistance.eval(a, b)]: the Levenshtein distance of the external
    [editdistance] package (unit-cost insertion, deletion and
    substitution of one character). *)
Fixpoint levenshtein (s t : string) {struct s} : nat :=
  match s with
  | EmptyString => String.length t
  | String a s' =>
      (fix against (t : string) : nat :=
         match t with
         | EmptyString => S (String.length s')
         | String b t' =>
             if Ascii.eqb a b then levenshtein s' t'
             else S (Nat.min (levenshtein s' t)
                       (Nat.min (against t') (levenshtein s' t')))
         end) t
  end.

Definition editdistance_eval (a b : string) : Z := Z.of_nat (levenshtein a b).

(** [min(a, b, c)]. *)
Definition min3 (a b c : Z) : Z := Z.min a (Z.min b c).

(** [similarity(name1, name2)].  [n1_tokens[0]] and [n1_tokens[-1]]
    raise [IndexError] on an empty list, which is [None] here. *)
Definition similarity (name1 name2 : string) : option Z :=
  let n1_tokens := PyStr.split " " name1 in
  match n1_tokens with
  | [] => None
  | first :: others =>
      (* First token to last position *)
      let permute1 := PyStr.join " " (others ++ [first]) in
      (* Last token to first position *)
      let permute2 :=
        PyStr.join " " ([List.last n1_tokens ""] ++ removelast n1_tokens) in
      Some (min3
              (editdistance_eval (PyStr.lower name1) (PyStr.lower name2))
              (editdistance_eval (PyStr.lower permute1) (PyStr.lower name2))
              (editdistance_eval (PyStr.lower permute2) (PyStr.lower name2)))
  end.

(** The raw tuple a provider function returns:
    [(external_id, name, affiliations, tags_or_interests)]. *)
Definition RawPerson : Type := string * string * list string * list string.

(** [Person(tuple_data)]. *)
Record Person := mkPerson {
  type : string;
  person_id : string;
  name : string;
  aff : list string;
  topics : list string
}.

Definition Person_of_tuple (source : string) (r : RawPerson) : Person :=
  let '(i, n, a, t) := r in
  {| type := source; person_id := i; name := n; aff := a; topics := t |}.

(** One element of the ['result'] list of an AMiner response: the
    ['aff'] dictionary is read at ['desc'] and ['desc_zh'], ['tags'] may
    be missing. *)
Record AminerPerson := mkAminerPerson {
  am_id : string;
  am_name : string;
  am_aff_desc : option string;
  am_aff_desc_zh : option string;
  am_tags : option (list string)
}.

(** An author object yielded by [scholarly.search_author]. *)
Record Author := mkAuthor {
  au_id : string;
  au_name : string;
  au_affiliation : string;
  au_interests : list string
}.

(** The elements read from one ORCID record. *)
Record OrcidRecord := mkOrcidRecord {
  given_names : option string;
  family_name : option string;
  affiliation_names : list string;
  keyword_contents : list string
}.

Section Providers.

(** The remote services: each is a function of the request. *)
Variable aminer_search : string -> list AminerPerson.
Variable scholarly_search_author : string -> list Author.
Variable orcid_search : string -> Z -> Z -> list string.
Variable orcid_record : string -> OrcidRecord.

(** [list(set(xs))]: the order the interpreter enumerates the set in. *)
Variable list_of_set : list string -> list string.

Definition aminer_person (name : string) (num_results : Z) : list RawPerson :=
  map (fun person_data =>
         let affiliation :=
           match am_aff_desc person_data, am_aff_desc_zh person_data with
           | Some d, _ => [d]
           | None, Some d => [d]
           | None, None => ["Not Available"]
           end in
         let tags := match am_tags person_data with
                     | Some ts => ts
                     | None => []
                     end in
         (am_id person_data, am_name person_data, affiliation, tags))
      (PyStr.slice_to num_results (aminer_search name)).

(** [while author and i < num_results]. *)
Fixpoint gscholar_loop (authors : list Author) (i num_results : Z)
    (collated_data : list RawPerson) : list RawPerson :=
  match authors with
  | [] => collated_data
  | author :: rest =>
      if i <? num_results then
        gscholar_loop rest (i + 1) num_results
          (collated_data ++
             [(au_id author, au_name author, [au_affiliation author],
               au_interests author)])
      else collated_data
  end.

Definition gscholar_person (name : string) (num_results : Z) : list RawPerson :=
  gscholar_loop (scholarly_search_author name) 0 num_results [].

Definition orcid_person (name : string) (num_results : Z) : list RawPerson :=
  let '(start_idx, end_idx) := (0, num_results) in
  map (fun orcid =>
         let data := orcid_record orcid in
         let given_name := default "" (given_names data) in
         let family := default "" (family_name data) in
         (orcid, (given_name ++ " " ++ family)%string,
          list_of_set (affiliation_names data),
          list_of_set (keyword_contents data)))
      (orcid_search name start_idx end_idx).

Definition get_person_results (name org : string) (num_to_search : Z)
    : list Person :=
  let num_to_search := 5 in (* Number of retrieved instances to look through *)
  let orcid_results := orcid_person name num_to_search in
  let aminer_results := aminer_person name num_to_search in
  let gscholar_results := gscholar_person name num_to_search in
  let results :=
    map (pair "orcid") orcid_results
    ++ map (pair "aminer_id") aminer_results
    ++ map (pair "gscholar_id") gscholar_results in
  map (fun r => Person_of_tuple (fst r) (snd r)) results.

End Providers.

End API.

(** ** The name-matching algorithm in the words of the specification *)

Module NameDisambiguatorSpec.

(** White space: space, tab, line feed, vertical tab, form feed,
    carriage return. *)
Definition is_whitespace (c : ascii) : bool :=
  let n := nat_of_ascii c in
  (Nat.eqb n 32 || (Nat.leb 9 n && Nat.leb n 13))%bool.

(** The tokens of a string: its maximal runs of characters that are not
    white space. *)
Fixpoint tokens_from (s : string) (current : string) : list string :=
  match s with
  | EmptyString => if String.eqb current "" then [] else [current]
  | String c rest =>
      if is_whitespace c then
        if String.eqb current "" then tokens_from rest ""
        else current :: tokens_from rest ""
      else tokens_from rest (current ++ String c EmptyString)%string
  end.

Definition whitespace_tokens (s : string) : list string := tokens_from s "".

Definition first_token_to_end (name : string) : string :=
  match whitespace_tokens name with
  | [] => ""
  | first :: others => PyStr.join " " (others ++ [first])
  end.

Definition last_token_to_front (name : string) : string :=
  match whitespace_tokens name with
  | [] => ""
  | toks => PyStr.join " " (List.last toks "" :: removelast toks)
  end.

(** The minimum of the three distances between lowercased strings. *)
Definition similarity_spec (name1 name2 : string) : Z :=
  API.min3
    (API.editdistance_eval (PyStr.lower name1) (PyStr.lower name2))
    (API.editdistance_eval (PyStr.lower (first_token_to_end name1))
       (PyStr.lower name2))
    (API.editdistance_eval (PyStr.lower (last_token_to_front name1))
       (PyStr.lower name2)).

End NameDisambiguatorSpec.

(** ** Space-separated tokens, on the string itself *)

Module SpaceTokens.

(** The part before the first space and the part after it. *)
Fixpoint cut_first_space (s : string) : option (string * string) :=
  match s with
  | EmptyString => None
  | String c rest =>
      if Ascii.eqb c " " then Some (EmptyString, rest)
      else match cut_first_space rest with
           | Some (before, after) => Some (String c before, after)
           | None => None
           end
  end.

(** The part before the last space and the part after it. *)
Fixpoint cut_last_space (s : string) : option (string * string) :=
  match s with
  | EmptyString => None
  | String c rest =>
      match cut_last_space rest with
      | Some (before, after) => Some (String c before, after)
      | None => if Ascii.eqb c " " then Some (EmptyString, rest) else None
      end
  end.

Definition first_token_to_end (name : string) : string :=
  match cut_first_space name with
  | Some (first, others) => (others ++ " " ++ first)%string
  | None => name
  end.

Definition last_token_to_front (name : string) : string :=
  match cut_last_space name with
  | Some (others, last) => (last ++ " " ++ others)%string
  | None => name
  end.

End SpaceTokens.

(** ** Entity spans in reading order *)

Module Spans.

(** All spans of a line: fragment by fragment, span by span. *)
Definition all_spans (tagger : string -> list (string * string))
    (line : Line) : list (string * string) :=
  concat (map tagger (PyStr.split "," (text line))).

(** The text of the first span carrying [tag]. *)
Definition first_tagged (tag : string) (spans : list (string * string))
    : option string :=
  fst <$> List.find (fun entity => String.eqb (snd entity) tag) spans.

(** The text of the last span carrying [tag]. *)
Definition last_tagged (tag : string) (spans : list (string * string))
    : option string :=
  first_tagged tag (rev spans).

End Spans.

(** ** Concrete inputs *)

Module Samples.

Import LineInfoExtractor.

(** A line whose three label columns agree. *)
Definition line (i n ind : Z) (lab txt : string) : Line :=
  {| id := i; page_id := 1; num := n; indent := ind; text := txt;
     label := lab; dl_prediction := lab; svm_prediction := lab |}.

(** The chain example: a role label and two content lines. *)
Definition chain_rl : Line := line 1 0 0 "Role-Label" "Program Committee".
Definition chain_l1 : Line := line 2 1 5 "Person" "Alice".
Definition chain_l2 : Line := line 3 2 14 "Person" "Bob".

(** Line numbers that stay within 10 of their predecessor only. *)
Definition far_l1 : Line := line 2 6 0 "Person" "Alice".
Definition far_l2 : Line := line 3 12 0 "Person" "Bob".

(** One page of conference 7 with one classified line. *)
Definition svm_line : Line := line 10 0 0 "Person" "Alice".
Definition one_page_db : BlockExtractor.LineDb :=
  {| BlockExtractor.ConferencePages := [(1, 7)];
     BlockExtractor.PageLines := [svm_line] |}.

(** A stub tagger: one entity per known fragment. *)
Definition stub_tagger (part : string) : list (string * string) :=
  if String.eqb part "MIT" then [("MIT", "ORG")]
  else if String.eqb part "CMU" then [("CMU", "ORG")]
  else if String.eqb part "Alice Wong" then [("Alice Wong", "PER")]
  else if String.eqb part " Bob Lee" then [("Bob Lee", "PER")]
  else [].

Definition two_persons : Line := line 20 3 0 "Complex" "Alice Wong, Bob Lee".

Definition never_fails (q : SqlStmt) : bool := false.

(** The engine rejects the insertion of the person ["Alice"]. *)
Definition alice_fails (q : SqlStmt) : bool :=
  match q with
  | InsertPerson n => String.eqb n "Alice"
  | _ => false
  end.

(** Graph identifiers start at 100 and grow with the session. *)
Definition graph_ids (done : list GraphTx) (tx : GraphTx) : Z :=
  100 + Z.of_nat (List.length done).

Definition pc_chair : Line := line 1 0 0 "Role-Label" "PC Chair".
Definition alice : Line := line 2 1 0 "Person" "Alice".
Definition mit : Line := line 3 2 0 "Affiliation" "MIT".
Definition organizer : Line := line 4 3 0 "Role-Label" "Organizer".
Definition bob : Line := line 5 4 0 "Person" "Bob".
Definition cmu : Line := line 6 5 0 "Affiliation" "CMU".

Definition conf7 : Conference :=
  {| conf_id := 7; n4j_attrs := "title: Conf";
     blocks := [(pc_chair, [alice; mit]); (organizer, [bob; cmu])] |}.

(** An extractor in the middle of conference 7, without a graph store. *)
Definition relational_only : Extractor :=
  with_conference conf7 (new_extractor empty_db false).

(** A relational store that already knows two organizations. *)
Definition two_orgs_db : SqlDb :=
  {| Persons := [];
     Organizations := [(1, "NUS", None); (2, "CMU", None)];
     PersonOrganization := []; PersonRole := [] |}.

(** An extractor in the middle of conference 7, with an open session. *)
Definition with_graph_store : Extractor :=
  with_n4j_conf_id 99
    (with_session (Some {| closed := false |})
       (with_conference conf7 (new_extractor two_orgs_db true))).

Definition tab : string := String (ascii_of_nat 9) EmptyString.

End Samples.

(** ** Concrete provider answers *)

Module ProviderSamples.

Import API.

(** Three AMiner records for every query. *)
Definition three_aminer (query : string) : list AminerPerson :=
  [ {| am_id := "a1"; am_name := "Wei Li"; am_aff_desc := Some "NUS";
       am_aff_desc_zh := None; am_tags := Some ["nlp"] |};
    {| am_id := "a2"; am_name := "Li Wei"; am_aff_desc := None;
       am_aff_desc_zh := Some "THU"; am_tags := None |};
    {| am_id := "a3"; am_name := "W. Li"; am_aff_desc := None;
       am_aff_desc_zh := None; am_tags := None |} ].

(** Two Google Scholar authors for every query. *)
Definition two_authors (query : string) : list Author :=
  [ {| au_id := "g1"; au_name := "Wei Li"; au_affiliation := "NUS";
       au_interests := ["nlp"] |};
    {| au_id := "g2"; au_name := "Li Wei"; au_affiliation := "THU";
       au_interests := [] |} ].

End ProviderSamples.

(* ===================================================================== *)
(** * Part II: lemmas and theorems *)
(* ===================================================================== *)

(** ** Dictionaries *)

Module LineDictFacts.

Import LineDict.

Lemma same_line_refl k : same_line k k = true.
Proof. unfold same_line. apply Z.eqb_refl. Qed.

Lemma same_line_trans_l a b k :
  same_line a b = true -> same_line a k = same_line b k.
Proof.
  unfold same_line. intros H. apply Z.eqb_eq in H. now rewrite H.
Qed.

Lemma get_set k r x m :
  get k (set r x m) = if same_line r k then Some x else get k m.
Proof.
  induction m as [|[k' v'] m IH]; simpl.
  - reflexivity.
  - destruct (same_line k' r) eqn:Hr; simpl.
    + rewrite (same_line_trans_l _ _ k Hr). now destruct (same_line r k).
    + rewrite IH. destruct (same_line k' k) eqn:Hk; [|reflexivity].
      destruct (same_line r k) eqn:Hrk; [|reflexivity].
      unfold same_line in *.
      apply Z.eqb_eq in Hk, Hrk. apply Z.eqb_neq in Hr. congruence.
Qed.

Lemma set_set r x y m : set r x (set r y m) = set r x m.
Proof.
  induction m as [|[k' v'] m IH]; simpl.
  - now rewrite same_line_refl.
  - destruct (same_line k' r) eqn:Hr; simpl; rewrite Hr; [reflexivity|].
    now rewrite IH.
Qed.

(** Writing a key keeps a property that holds of every key and every
    value separately. *)
Lemma Forall_set (P : Line -> Prop) (Q : list Line -> Prop) k v m :
  Forall (fun kv => P (fst kv) /\ Q (snd kv)) m ->
  P k -> Q v ->
  Forall (fun kv => P (fst kv) /\ Q (snd kv)) (set k v m).
Proof.
  intros Hm Hk Hv. induction m as [|[k' v'] m IH]; simpl.
  - constructor; [split; assumption|constructor].
  - inversion Hm as [|kv m' [Hk' Hv'] Hm']; subst. simpl in *.
    destruct (same_line k' k); constructor; simpl; auto.
Qed.

Lemma has_key_get k m : has_key k m = true <-> exists v, get k m = Some v.
Proof.
  unfold has_key. destruct (get k m); split; eauto; try discriminate.
  intros [v Hv]; discriminate.
Qed.

End LineDictFacts.

(** ** BlockExtractor *)

Module BlockExtractorProofs.

Import BlockExtractor LineDictFacts Samples.

Section Grouping.

Variable extract_type : string.
Variables indent_diff_thresh lnum_diff_thresh : Z.

Abbreviation step := (group_step extract_type indent_diff_thresh lnum_diff_thresh).
Abbreviation within := (within_threshold indent_diff_thresh lnum_diff_thresh).
Abbreviation events := (accepted_from extract_type indent_diff_thresh lnum_diff_thresh).

Lemma accepted_under_app k evs evs' :
  accepted_under k (evs ++ evs') = accepted_under k evs ++ accepted_under k evs'.
Proof. unfold accepted_under. now rewrite List.filter_app, map_app. Qed.

Lemma entry_of_snoc v (l : Line) : entry_of (v ++ [l]) = Some (v ++ [l]).
Proof. now destruct v. Qed.

(** One accepted line extends the entry of its role label and leaves
    the other entries alone. *)
Lemma accept_entry (m : LineDict.t) rl line evs :
  (forall k, LineDict.get k m = entry_of (accepted_under k evs)) ->
  let '(v, m1) := LineDict.getitem_default rl m in
  let m2 := match v with
            | _ :: _ => LineDict.set rl (v ++ [line]) m1
            | [] => LineDict.set rl [line] m1
            end in
  forall k, LineDict.get k m2 = entry_of (accepted_under k (evs ++ [(rl, line)])).
Proof.
  intros Hm. unfold LineDict.getitem_default.
  pose proof (Hm rl) as Hrl.
  assert (Hk : forall x k,
             x = accepted_under rl evs ++ [line] ->
             LineDict.get k (LineDict.set rl x m) =
             entry_of (accepted_under k (evs ++ [(rl, line)]))).
  { intros x k ->. rewrite get_set, accepted_under_app.
    unfold accepted_under at 3. simpl.
    destruct (LineDict.same_line rl k) eqn:E; simpl.
    - rewrite entry_of_snoc. f_equal. f_equal.
      unfold accepted_under. f_equal.
      apply List.filter_ext. intros [a b]. simpl.
      unfold LineDict.same_line in *. apply Z.eqb_eq in E.
      now rewrite E.
    - rewrite app_nil_r. apply Hm. }
  destruct (LineDict.get rl m) as [v|] eqn:G.
  - destruct (accepted_under rl evs) as [|a w] eqn:A; [discriminate|].
    simpl in Hrl. injection Hrl as ->.
    intros k. apply Hk. reflexivity.
  - destruct (accepted_under rl evs) as [|a w] eqn:A; [|discriminate].
    intros k. rewrite set_set. apply Hk. reflexivity.
Qed.

(** The dictionary built by the loop holds, for every key, the lines
    accepted under it, and no entry for a key without accepted lines. *)
Lemma group_fold_entries lines :
  forall st evs,
    (forall k, LineDict.get k (mapping st) = entry_of (accepted_under k evs)) ->
    forall k,
      LineDict.get k (mapping (fold_left step lines st)) =
      entry_of (accepted_under k
                  (evs ++ events (role_label st) (prev_labelled st) lines)).
Proof.
  induction lines as [|line rest IH]; intros st evs Hst k; simpl.
  - rewrite app_nil_r. apply Hst.
  - unfold group_step at 2.
    destruct (String.eqb (active_label extract_type line) "Role-Label").
    + rewrite (IH _ evs); [reflexivity|exact Hst].
    + destruct (role_label st) as [rl|] eqn:Hrl;
        destruct (prev_labelled st) as [prev|] eqn:Hprev;
        try (rewrite (IH st evs Hst k), Hrl, Hprev; reflexivity).
      destruct (within line prev rl).
      * pose proof (accept_entry (mapping st) rl line evs Hst) as Hacc.
        destruct (LineDict.getitem_default rl (mapping st)) as [v m1].
        cbv zeta in Hacc.
        rewrite IH with (evs := evs ++ [(rl, line)]); [|exact Hacc]. simpl.
        now rewrite <- app_assoc.
      * rewrite (IH st evs Hst k), Hrl, Hprev. reflexivity.
Qed.

Lemma group_entries lines k :
  LineDict.get k (group extract_type indent_diff_thresh lnum_diff_thresh lines) =
  entry_of (accepted_under k
              (accepted extract_type indent_diff_thresh lnum_diff_thresh lines)).
Proof.
  unfold group, group_lines, accepted.
  now rewrite (group_fold_entries lines (group_init) []).
Qed.

(** The dictionary after an accepted line, in one write. *)
Lemma accept_mapping (m : LineDict.t) rl line :
  (let '(v, m1) := LineDict.getitem_default rl m in
   match v with
   | _ :: _ => LineDict.set rl (v ++ [line]) m1
   | [] => LineDict.set rl [line] m1
   end) = LineDict.set rl (default [] (LineDict.get rl m) ++ [line]) m.
Proof.
  unfold LineDict.getitem_default.
  destruct (LineDict.get rl m) as [[|a w]|]; simpl; try reflexivity.
  apply set_set.
Qed.

Lemma get_Forall (P : Line -> Prop) (Q : list Line -> Prop) k v
    (m : LineDict.t) :
  Forall (fun kv => P (fst kv) /\ Q (snd kv)) m ->
  LineDict.get k m = Some v -> Q v.
Proof.
  induction m as [|[k' v'] m IH]; simpl; [discriminate|].
  intros Hm. inversion Hm as [|kv m' [_ Hv'] Hm']; subst. simpl in *.
  destruct (LineDict.same_line k' k); [|auto].
  intros [= <-]. exact Hv'.
Qed.

Lemma group_fold_blocks all lines :
  forall st,
    (forall l, In l lines -> In l all) ->
    Forall (block_ok extract_type all) (mapping st) ->
    (forall rl, role_label st = Some rl ->
                In rl all /\ active_label extract_type rl = "Role-Label") ->
    Forall (block_ok extract_type all) (mapping (fold_left step lines st)).
Proof.
  induction lines as [|line rest IH]; intros st Hin Hm Hrl; simpl; [exact Hm|].
  assert (Hrest : forall l, In l rest -> In l all)
    by (intros l Hl; apply Hin; now right).
  assert (Hline : In line all) by (apply Hin; now left).
  apply IH; [exact Hrest| |]; unfold group_step;
    destruct (String.eqb (active_label extract_type line) "Role-Label") eqn:E.
  - exact Hm.
  - destruct (role_label st) as [rl|] eqn:R; [|exact Hm].
    destruct (prev_labelled st) as [prev|]; [|exact Hm].
    destruct (within line prev rl); [|exact Hm].
    pose proof (accept_mapping (mapping st) rl line) as A.
    destruct (LineDict.getitem_default rl (mapping st)) as [v m1].
    simpl. rewrite A. clear A.
    apply String.eqb_neq in E.
    unfold block_ok.
    apply (Forall_set
             (fun k => In k all /\ active_label extract_type k = "Role-Label")
             (fun v => v <> [] /\
                Forall (fun l => In l all /\
                          active_label extract_type l <> "Role-Label") v));
      [exact Hm|now apply Hrl|].
    split; [now destruct (default [] (LineDict.get rl (mapping st)))|].
    apply Forall_app. split; [|now repeat constructor].
    destruct (LineDict.get rl (mapping st)) as [w|] eqn:G; [|constructor].
    simpl. unfold block_ok in Hm.
    exact (proj2 (get_Forall
                    (fun k => In k all /\
                              active_label extract_type k = "Role-Label")
                    (fun v => v <> [] /\
                       Forall (fun l => In l all /\
                                 active_label extract_type l <> "Role-Label") v)
                    _ _ _ Hm G)).
  - simpl. intros rl [= <-]. apply String.eqb_eq in E. now split.
  - destruct (role_label st) as [rl|] eqn:R; [|now rewrite R].
    destruct (prev_labelled st) as [prev|]; [|now rewrite R].
    destruct (within line prev rl); [|now rewrite R].
    destruct (LineDict.getitem_default rl (mapping st)) as [v m1].
    simpl. intros rl' [= <-]. now apply Hrl.
Qed.

Lemma group_blocks lines :
  Forall (block_ok extract_type lines)
    (group extract_type indent_diff_thresh lnum_diff_thresh lines).
Proof.
  unfold group, group_lines.
  apply group_fold_blocks; [auto|constructor|discriminate].
Qed.

End Grouping.

Lemma within_threshold_iff it lt line prev rl :
  within_threshold it lt line prev rl = true <->
  Z.abs (indent line - indent rl) < it /\ Z.abs (num line - num prev) < lt.
Proof.
  unfold within_threshold. rewrite andb_true_iff, !Z.ltb_lt. reflexivity.
Qed.

(** Sample lines carry the same label in every mode. *)
Ltac by_mode et :=
  cbv [group group_lines group_init fold_left group_step active_label];
  destruct (String.eqb et "gold");
  destruct (String.eqb et "svm_prediction"); reflexivity.

(** C3, as stated, fails: with both thresholds 10, the line at indent 14
    is not accepted under the role label at indent 0, although the line
    accepted just before it has indent 5. *)
Lemma C3_second_line_not_accepted :
  within_threshold 10 10 chain_l2 chain_l1 chain_rl = false /\
  LineDict.get chain_rl (group "gold" 10 10 [chain_rl; chain_l1; chain_l2])
    = Some [chain_l1] /\
  LineDict.get chain_rl (group "gold" 10 10 [chain_rl; chain_l1; chain_l2])
    <> Some [chain_l1; chain_l2].
Proof. repeat split; try reflexivity. vm_compute. discriminate. Qed.

(** C3, amended: the indent of a line is compared with the indent of
    the role label, its number with the number of the last accepted line.
    In the example the first content line is accepted and the line at
    indent 14 is dropped; line numbers chain, so a line 12 lines after the
    role label is accepted when the line before it was accepted at 6. *)
Theorem C3_indent_anchored_lnum_chained :
  forall extract_type,
    group extract_type 10 10 [chain_rl; chain_l1; chain_l2]
      = [(chain_rl, [chain_l1])] /\
    group extract_type 10 10 [chain_rl; far_l1; far_l2]
      = [(chain_rl, [far_l1; far_l2])] /\
    (forall it lt line prev rl,
        within_threshold it lt line prev rl = true <->
        Z.abs (indent line - indent rl) < it /\
        Z.abs (num line - num prev) < lt).
Proof.
  intros et. split; [by_mode et|]. split; [by_mode et|].
  intros. apply within_threshold_iff.
Qed.

(** C4, as stated, fails: a role label without accepted content is not
    a key of the result, and reading it finds no empty list. *)
Lemma C4_role_label_without_content_is_no_key :
  active_label "gold" chain_rl = "Role-Label" /\
  group "gold" 10 10 [chain_rl] = [] /\
  LineDict.has_key chain_rl (group "gold" 10 10 [chain_rl]) = false /\
  LineDict.get chain_rl (group "gold" 10 10 [chain_rl]) <> Some [].
Proof. repeat split; try reflexivity. vm_compute. discriminate. Qed.

(** C4, amended: the keys of the result are the role-label lines under
    which at least one content line was accepted.  The entry of a key is
    the list of the lines accepted under it, in order, and is never
    empty; a role label without accepted lines has no entry. *)
Theorem C4_keys_are_role_labels_with_accepted_content :
  forall extract_type it lt lines,
    (forall k,
        LineDict.get k (group extract_type it lt lines) =
        match accepted_under k (accepted extract_type it lt lines) with
        | [] => None
        | v => Some v
        end) /\
    (forall k,
        LineDict.has_key k (group extract_type it lt lines) =
        negb (Nat.eqb
                (List.length
                   (accepted_under k (accepted extract_type it lt lines))) 0)) /\
    Forall (fun kv =>
              (In (fst kv) lines /\
               active_label extract_type (fst kv) = "Role-Label") /\
              (snd kv <> [] /\
               Forall (fun l => In l lines /\
                         active_label extract_type l <> "Role-Label") (snd kv)))
      (group extract_type it lt lines).
Proof.
  intros et it lt lines. split; [|split].
  - intros k. rewrite group_entries. unfold entry_of.
    now destruct (accepted_under k _).
  - intros k. unfold LineDict.has_key. rewrite group_entries. unfold entry_of.
    now destruct (accepted_under k _).
  - apply group_blocks.
Qed.

Lemma get_relevant_lines_loop_svm db page_ids all_lines :
  page_ids <> [] ->
  get_relevant_lines_loop "svm_prediction" db page_ids all_lines = [].
Proof. destruct page_ids; [congruence|reflexivity]. Qed.

Lemma get_relevant_lines_loop_gold db page_ids all_lines :
  get_relevant_lines_loop "gold" db page_ids all_lines =
  all_lines ++ concat (map (select_page_lines label db) page_ids).
Proof.
  revert all_lines. induction page_ids as [|p ps IH]; intros acc; simpl.
  - now rewrite app_nil_r.
  - rewrite IH. now rewrite <- app_assoc.
Qed.

Lemma get_relevant_lines_loop_dl db page_ids all_lines :
  get_relevant_lines_loop "dl_prediction" db page_ids all_lines =
  all_lines ++ concat (map (select_page_lines dl_prediction db) page_ids).
Proof.
  revert all_lines. induction page_ids as [|p ps IH]; intros acc; simpl.
  - now rewrite app_nil_r.
  - rewrite IH. now rewrite <- app_assoc.
Qed.

(** C6 on the code: in the ['gold'] and ['dl_prediction'] modes the
    result is the concatenation, page by page, of the selected lines; in
    the ['svm_prediction'] mode the result is always empty, also for a
    page that has a line with non-empty text and an SVM label other than
    ['Undefined']. *)
Theorem C6_svm_prediction_mode_returns_nothing :
  (forall db conf,
      get_relevant_lines "gold" db conf =
      concat (map (select_page_lines label db) (select_page_ids db conf))) /\
  (forall db conf,
      get_relevant_lines "dl_prediction" db conf =
      concat (map (select_page_lines dl_prediction db)
                (select_page_ids db conf))) /\
  (forall db conf, get_relevant_lines "svm_prediction" db conf = []) /\
  select_page_ids one_page_db 7 = [1] /\
  select_page_lines svm_prediction one_page_db 1 = [svm_line] /\
  get_relevant_lines "svm_prediction" one_page_db 7 = [].
Proof.
  repeat split; try reflexivity.
  - intros. unfold get_relevant_lines. now rewrite get_relevant_lines_loop_gold.
  - intros. unfold get_relevant_lines. now rewrite get_relevant_lines_loop_dl.
  - intros. unfold get_relevant_lines.
    destruct (select_page_ids db conf); reflexivity.
Qed.

End BlockExtractorProofs.

(** ** LineInfoExtractor: entity extraction from a line *)

Module LinePartsProofs.

Import LineInfoExtractor Spans Samples.

Section Tagger.

Variable tagger : string -> list (string * string).

Lemma tag_spans_app (lp : gmap string string) spans spans' :
  tag_spans (tag_spans lp spans) spans' = tag_spans lp (spans ++ spans').
Proof. unfold tag_spans. now rewrite fold_left_app. Qed.

Lemma last_tagged_snoc tag spans (entity : string * string) :
  last_tagged tag (spans ++ [entity]) =
  if String.eqb (snd entity) tag then Some (fst entity)
  else last_tagged tag spans.
Proof.
  unfold last_tagged, first_tagged. rewrite rev_app_distr. simpl.
  now destruct (String.eqb (snd entity) tag).
Qed.

(** Every span overwrites the entry of its tag. *)
Lemma tag_spans_lookup (lp : gmap string string) spans tag :
  tag_spans lp spans !! tag =
  match last_tagged tag spans with
  | Some v => Some v
  | None => lp !! tag
  end.
Proof.
  induction spans as [|entity spans IH] using rev_ind.
  - reflexivity.
  - rewrite <- tag_spans_app, last_tagged_snoc. simpl.
    destruct (String.eqb_spec (snd entity) tag) as [->|Hne].
    + apply lookup_insert_eq.
    + rewrite lookup_insert_ne by exact Hne. exact IH.
Qed.

Lemma fold_parts (parts : list string) :
  forall lp : gmap string string,
    fold_left (fun lp part => tag_spans lp (tagger part)) parts lp =
    tag_spans lp (concat (map tagger parts)).
Proof.
  induction parts as [|part parts IH]; intros lp; simpl; [reflexivity|].
  rewrite IH. apply tag_spans_app.
Qed.

Lemma get_line_parts_flair_spans line :
  get_line_parts_flair tagger line = tag_spans ∅ (all_spans tagger line).
Proof. unfold get_line_parts_flair, all_spans. apply fold_parts. Qed.

End Tagger.

(** C1, as stated, fails: in ["Alice Wong, Bob Lee"] the first fragment
    yields the person Alice Wong and the second the person Bob Lee, and
    the entry kept for the tag is Bob Lee, not the first one seen. *)
Lemma C1_first_tag_is_overwritten :
  first_tagged "PER" (all_spans stub_tagger two_persons) = Some "Alice Wong" /\
  get_line_parts_flair stub_tagger two_persons !! "PER" = Some "Bob Lee" /\
  get_line_parts_flair stub_tagger two_persons !! "PER" <>
  first_tagged "PER" (all_spans stub_tagger two_persons).
Proof. repeat split; try reflexivity. vm_compute. discriminate. Qed.

(** C1, amended: the text is split on commas, the tagger is run on every
    fragment, and for every tag the entry kept is the text of the LAST
    span with that tag, in the order of fragments and of spans within a
    fragment: a later entity replaces an earlier one of the same type.  A
    tag without a span has no entry. *)
Theorem C1_get_line_parts_last_wins :
  forall tagger line tag,
    get_line_parts_flair tagger line !! tag =
    last_tagged tag (concat (map tagger (PyStr.split "," (text line)))).
Proof.
  intros tagger line tag.
  rewrite get_line_parts_flair_spans, tag_spans_lookup.
  unfold all_spans. now destruct (last_tagged tag _).
Qed.

End LinePartsProofs.

(** ** The relational store *)

Module SqlFacts.

Import LineInfoExtractor.

Lemma next_id_above ids : Forall (fun i => i < next_id ids) ids.
Proof.
  unfold next_id. induction ids as [|i ids IH]; simpl; constructor.
  - lia.
  - eapply List.Forall_impl; [|exact IH]. simpl. intros; lia.
Qed.

Lemma next_id_fresh ids : ~ In (next_id ids) ids.
Proof.
  intros Hin. pose proof (next_id_above ids) as H.
  rewrite List.Forall_forall in H. specialize (H _ Hin). lia.
Qed.

Section Rows.

Context {R : Type}.
Variable key : R -> Z.
Variable name_of : R -> string.

Lemma id_by_name_app_l n rows rows' i :
  id_by_name key name_of n rows = Some i ->
  id_by_name key name_of n (rows ++ rows') = Some i.
Proof.
  unfold id_by_name. induction rows as [|r rows IH]; simpl; [discriminate|].
  destruct (String.eqb (name_of r) n); auto.
Qed.

Lemma id_by_name_app_r n rows r :
  id_by_name key name_of n rows = None -> name_of r = n ->
  id_by_name key name_of n (rows ++ [r]) = Some (key r).
Proof.
  unfold id_by_name. intros Hnone <-.
  induction rows as [|r' rows IH]; simpl in *.
  - now rewrite String.eqb_refl.
  - destruct (String.eqb (name_of r') (name_of r)); [discriminate|auto].
Qed.

Lemma id_by_name_In n rows i :
  id_by_name key name_of n rows = Some i ->
  exists r, In r rows /\ key r = i /\ name_of r = n.
Proof.
  unfold id_by_name. induction rows as [|r rows IH]; simpl; [discriminate|].
  destruct (String.eqb_spec (name_of r) n) as [E|E].
  - intros [= <-]. exists r. auto.
  - intros H. destruct (IH H) as (r' & ? & ? & ?). exists r'. auto.
Qed.

(** With unique keys, a key determines the name of its row. *)
Lemma key_determines_name rows r r' :
  List.NoDup (map key rows) -> In r rows -> In r' rows -> key r = key r' ->
  name_of r = name_of r'.
Proof.
  induction rows as [|x rows IH]; simpl; [tauto|].
  intros Hnd. apply List.NoDup_cons_iff in Hnd as [Hx Hnd].
  intros [->|Hr] [->|Hr'] Hk; auto.
  - exfalso. apply Hx. rewrite Hk. now apply in_map.
  - exfalso. apply Hx. rewrite <- Hk. now apply in_map.
Qed.

End Rows.

Lemma person_id_of_eq n rows :
  person_id_of n rows = id_by_name fst snd n rows.
Proof. reflexivity. Qed.

Lemma org_id_of_eq n rows :
  org_id_of n rows = id_by_name (fun r => fst (fst r)) (fun r => snd (fst r)) n rows.
Proof. reflexivity. Qed.

(** [INSERT OR IGNORE INTO Persons], on the table. *)
Lemma Persons_insert n db :
  Persons (fst (sql_apply (InsertPerson n) db)) =
  match person_id_of n (Persons db) with
  | Some _ => Persons db
  | None => Persons db ++ [(next_id (map fst (Persons db)), n)]
  end.
Proof. simpl. now destruct (person_id_of n (Persons db)). Qed.

(** After the insertion the name has an identifier. *)
Lemma person_inserted n db :
  exists pid,
    person_id_of n (Persons (fst (sql_apply (InsertPerson n) db))) = Some pid.
Proof.
  rewrite Persons_insert.
  destruct (person_id_of n (Persons db)) as [i|] eqn:E.
  - exists i. exact E.
  - eexists. rewrite person_id_of_eq in *.
    now apply id_by_name_app_r.
Qed.

Lemma org_inserted n db :
  exists oid,
    org_id_of n (Organizations (fst (sql_apply (InsertOrganization n) db)))
    = Some oid.
Proof.
  simpl. destruct (org_id_of n (Organizations db)) as [i|] eqn:E; simpl.
  - exists i. exact E.
  - eexists. rewrite org_id_of_eq in *.
    now apply id_by_name_app_r.
Qed.

(** Keys stay unique when a person is inserted. *)
Lemma Persons_insert_NoDup n db :
  List.NoDup (map fst (Persons db)) ->
  List.NoDup (map fst (Persons (fst (sql_apply (InsertPerson n) db)))).
Proof.
  intros Hnd. rewrite Persons_insert.
  destruct (person_id_of n (Persons db)); [exact Hnd|].
  rewrite map_app. simpl. apply List.NoDup_app.
  - exact Hnd.
  - constructor; [simpl; tauto|constructor].
  - intros i Hi [<-|[]]. now apply next_id_fresh in Hi.
Qed.

Lemma db_le_refl db : db_le db db.
Proof. constructor; auto. Qed.

Lemma db_le_trans a b c : db_le a b -> db_le b c -> db_le a c.
Proof. intros [] []. constructor; auto. Qed.

Lemma org_id_of_update n loc oid rows :
  org_id_of n
    (map (fun r : Z * string * option string =>
            if Z.eqb (fst (fst r)) oid then (fst r, Some loc) else r) rows)
  = org_id_of n rows.
Proof.
  unfold org_id_of. induction rows as [|[[i m] l] rows IH]; simpl; [reflexivity|].
  destruct (Z.eqb i oid); simpl; destruct (String.eqb m n); auto.
Qed.

Lemma sql_apply_le q db : db_le db (fst (sql_apply q db)).
Proof.
  destruct q; simpl.
  - destruct (person_id_of name (Persons db)) eqn:E; simpl;
      [apply db_le_refl|].
    constructor; simpl; auto.
    intros n i H. rewrite person_id_of_eq in *. now apply id_by_name_app_l.
  - apply db_le_refl.
  - destruct (org_id_of name (Organizations db)) eqn:E; simpl;
      [apply db_le_refl|].
    constructor; simpl; auto.
    intros n i H. rewrite org_id_of_eq in *. now apply id_by_name_app_l.
  - apply db_le_refl.
  - destruct (existsb _ _); simpl; [apply db_le_refl|].
    constructor; simpl; auto. intros r Hr. apply in_or_app. now left.
  - destruct (existsb _ _); simpl; [apply db_le_refl|].
    constructor; simpl; auto. intros r Hr. apply in_or_app. now left.
  - constructor; simpl; auto.
    intros n i H. now rewrite org_id_of_update.
Qed.

(** After [INSERT OR IGNORE] the relation holds the row. *)
Lemma role_inserted role conf pid db :
  In (role, conf, pid)
     (PersonRole (fst (sql_apply (InsertPersonRole role conf pid) db))).
Proof.
  simpl. destruct (existsb _ _) eqn:E; simpl.
  - apply existsb_exists in E as ([[r c] p] & Hin & Heq).
    unfold role_eqb in Heq. simpl in Heq.
    apply andb_true_iff in Heq as [Heq Hp].
    apply andb_true_iff in Heq as [Hr Hc].
    apply String.eqb_eq in Hr. apply Z.eqb_eq in Hc, Hp. now subst.
  - apply in_or_app. right. now left.
Qed.

Lemma affiliation_inserted oid pid db :
  In (oid, pid)
     (PersonOrganization
        (fst (sql_apply (InsertPersonOrganization oid pid) db))).
Proof.
  simpl. destruct (existsb _ _) eqn:E; simpl.
  - apply existsb_exists in E as ([o p] & Hin & Heq).
    unfold pair_eqb in Heq. simpl in Heq.
    apply andb_true_iff in Heq as [Ho Hp].
    apply Z.eqb_eq in Ho, Hp. now subst.
  - apply in_or_app. right. now left.
Qed.

End SqlFacts.

(** ** LineInfoExtractor: methods *)

Module LineInfoExtractorProofs.

Import LineInfoExtractor SqlFacts Samples.

#[local] Arguments sql_apply : simpl never.

Lemma bind_ok {A B} (c : M A) (k : A -> M B) e a e' :
  c e = (Ok a, e') -> bind c k e = k a e'.
Proof. unfold bind. now intros ->. Qed.

Lemma bind_raise {A B} (c : M A) (k : A -> M B) e x e' :
  c e = (Raise x, e') -> bind c k e = (Raise x, e').
Proof. unfold bind. now intros ->. Qed.

Lemma extends_refl e : extends e e [].
Proof. constructor; auto using db_le_refl. now rewrite app_nil_r. Qed.

Lemma extends_trans e e1 e2 qs qs' :
  extends e e1 qs -> extends e1 e2 qs' -> extends e e2 (qs ++ qs').
Proof.
  intros [] []. constructor; try congruence.
  - rewrite app_assoc. congruence.
  - eauto using db_le_trans.
Qed.

Lemma extends_with_cur q e :
  extends e (with_cur (fst (sql_apply q (cur e))) q e) [q].
Proof. constructor; simpl; auto using sql_apply_le. Qed.

Lemma extends_with_graph g e : extends e (with_graph g e) [].
Proof. constructor; simpl; auto using db_le_refl. now rewrite app_nil_r. Qed.

Section Methods.

Variable extract_type : string.
Variable tagger : string -> list (string * string).
Variable sql_fails : SqlStmt -> bool.
Variable tx_result : list GraphTx -> GraphTx -> Z.

Lemma execute_fails q e :
  sql_fails q = true -> execute sql_fails q e = (Raise (SqliteError q), e).
Proof. unfold execute. now intros ->. Qed.

Section NoFailure.

Hypothesis no_failure : forall q, sql_fails q = false.

Lemma execute_ok q e :
  execute sql_fails q e =
  (Ok (snd (sql_apply q (cur e))), with_cur (fst (sql_apply q (cur e))) q e).
Proof.
  unfold execute. rewrite no_failure. now destruct (sql_apply q (cur e)).
Qed.

(** The graph write that follows the relational write of a method. *)
Lemma graph_write_ok {A} tx (k : Z -> A) (a : A) e :
  exists e',
    (has_session <- session_present ;;
     if has_session : bool then
       r <- write_transaction tx_result tx ;; ret (k r)
     else ret a) e
    = (Ok (match session e with
           | Some _ => k (tx_result (graph e) tx)
           | None => a
           end), e')
    /\ extends e e' [] /\ cur e' = cur e.
Proof.
  unfold bind, session_present, gets, write_transaction, ret.
  destruct (session e) eqn:S; simpl; rewrite ?S; eexists; split;
    try reflexivity; split; auto using extends_refl, extends_with_graph.
Qed.

Lemma add_person_ok n e :
  exists gid pid e',
    add_person sql_fails tx_result n e = (Ok (gid, pid), e') /\
    person_id_of n (Persons (cur e')) = Some pid /\
    extends e e' [InsertPerson n; SelectPersonId n] /\
    cur e' = fst (sql_apply (InsertPerson n) (cur e)).
Proof.
  unfold add_person.
  rewrite (bind_ok _ _ _ _ _ (execute_ok _ _)).
  rewrite (bind_ok _ _ _ _ _ (execute_ok _ _)).
  set (e1 := with_cur _ (InsertPerson n) e).
  set (e2 := with_cur _ (SelectPersonId n) e1).
  destruct (person_inserted n (cur e)) as [pid Hpid].
  assert (Hsel : snd (sql_apply (SelectPersonId n) (cur e1)) = Some pid)
    by exact Hpid.
  rewrite Hsel. simpl first_column.
  unfold bind at 1, ret at 1.
  destruct (graph_write_ok (TxFn_create_person n) (fun r => (r, pid)) (-1, pid) e2)
    as (e' & Hrun & Hext & Hcur).
  rewrite Hrun.
  exists (match session e2 with
          | Some _ => tx_result (graph e2) (TxFn_create_person n)
          | None => -1
          end), pid, e'. split.
  - destruct (session e2); reflexivity.
  - split; [rewrite Hcur; exact Hpid|]. split; [|exact Hcur].
    change [InsertPerson n; SelectPersonId n]
      with (([InsertPerson n] ++ [SelectPersonId n]) ++ []).
    eapply extends_trans; [|exact Hext].
    eapply extends_trans; apply extends_with_cur.
Qed.

Lemma add_organization_ok n e :
  exists gid oid e',
    add_organization sql_fails tx_result n e = (Ok (gid, oid), e') /\
    org_id_of n (Organizations (cur e')) = Some oid /\
    extends e e' [InsertOrganization n; SelectOrganizationId n].
Proof.
  unfold add_organization.
  rewrite (bind_ok _ _ _ _ _ (execute_ok _ _)).
  rewrite (bind_ok _ _ _ _ _ (execute_ok _ _)).
  set (e1 := with_cur _ (InsertOrganization n) e).
  set (e2 := with_cur _ (SelectOrganizationId n) e1).
  destruct (org_inserted n (cur e)) as [oid Hoid].
  assert (Hsel : snd (sql_apply (SelectOrganizationId n) (cur e1)) = Some oid)
    by exact Hoid.
  rewrite Hsel. simpl first_column.
  unfold bind at 1, ret at 1.
  destruct (graph_write_ok (TxFn_create_organization n)
              (fun r => (r, oid)) (-1, oid) e2)
    as (e' & Hrun & Hext & Hcur).
  rewrite Hrun.
  exists (match session e2 with
          | Some _ => tx_result (graph e2) (TxFn_create_organization n)
          | None => -1
          end), oid, e'. split.
  - destruct (session e2); reflexivity.
  - split; [rewrite Hcur; exact Hoid|].
    change [InsertOrganization n; SelectOrganizationId n]
      with (([InsertOrganization n] ++ [SelectOrganizationId n]) ++ []).
    eapply extends_trans; [|exact Hext].
    eapply extends_trans; apply extends_with_cur.
Qed.

Lemma add_affiliation_rel_ok person_ids org_ids e :
  exists e',
    add_affiliation_rel sql_fails tx_result person_ids org_ids e = (Ok tt, e') /\
    In (snd org_ids, snd person_ids) (PersonOrganization (cur e')) /\
    extends e e' [InsertPersonOrganization (snd org_ids) (snd person_ids)].
Proof.
  unfold add_affiliation_rel.
  rewrite (bind_ok _ _ _ _ _ (execute_ok _ _)).
  set (q := InsertPersonOrganization _ _).
  set (e1 := with_cur _ q e).
  destruct (graph_write_ok
              (TxFn_create_affiliation_rel (fst person_ids) (snd org_ids))
              (fun _ => tt) tt e1)
    as (e' & Hrun & Hext & Hcur).
  exists e'. split; [|split].
  - etransitivity; [exact Hrun|]. now destruct (session e1).
  - rewrite Hcur. apply affiliation_inserted.
  - change [q] with ([q] ++ []).
    eapply extends_trans; [apply extends_with_cur|exact Hext].
Qed.

Lemma add_role_rel_ok person_ids role e c :
  sql_conf_id e = Some c ->
  (is_Some (session e) -> is_Some (n4j_conf_id e)) ->
  exists e',
    add_role_rel sql_fails tx_result person_ids role e = (Ok tt, e') /\
    In (role, c, snd person_ids) (PersonRole (cur e')) /\
    extends e e' [InsertPersonRole role c (snd person_ids)].
Proof.
  intros Hc Hn. unfold add_role_rel.
  unfold bind at 1, attribute at 1. rewrite Hc.
  rewrite (bind_ok _ _ _ _ _ (execute_ok _ _)).
  set (q := InsertPersonRole _ _ _).
  set (e1 := with_cur _ q e).
  unfold bind, session_present, gets, attribute, write_transaction, ret.
  change (session e1) with (session e).
  change (n4j_conf_id e1) with (n4j_conf_id e).
  destruct (session e) as [s|] eqn:S.
  - destruct Hn as [n Hn]; [now exists s|].
    change (n4j_conf_id e1) with (n4j_conf_id e). rewrite Hn.
    change (session e1) with (session e). rewrite S.
    eexists. split; [reflexivity|]. split.
    + apply role_inserted.
    + change [q] with ([q] ++ []).
      eapply extends_trans; [apply extends_with_cur|apply extends_with_graph].
  - eexists. split; [reflexivity|]. split.
    + apply role_inserted.
    + apply extends_with_cur.
Qed.

(** [process_pair] when the affiliation line yields an organization and
    no location: six statements, in this order. *)
Lemma process_pair_org person affiliation role_label org e c :
  get_line_parts_flair tagger affiliation !! "ORG" = Some org ->
  org <> "" ->
  get_line_parts_flair tagger affiliation !! "LOC" = None ->
  sql_conf_id e = Some c ->
  (is_Some (session e) -> is_Some (n4j_conf_id e)) ->
  exists pid oid e',
    process_pair tagger sql_fails tx_result person affiliation role_label e
      = (Ok tt, e') /\
    person_id_of (text person) (Persons (cur e')) = Some pid /\
    org_id_of org (Organizations (cur e')) = Some oid /\
    In (text role_label, c, pid) (PersonRole (cur e')) /\
    In (oid, pid) (PersonOrganization (cur e')) /\
    extends e e'
      [InsertPerson (text person); SelectPersonId (text person);
       InsertPersonRole (text role_label) c pid;
       InsertOrganization org; SelectOrganizationId org;
       InsertPersonOrganization oid pid].
Proof.
  intros Horg Hne Hloc Hc Hn. unfold process_pair.
  destruct (add_person_ok (text person) e) as (gp & pid & e1 & R1 & P1 & X1 & _).
  rewrite (bind_ok _ _ _ _ _ R1).
  destruct (add_role_rel_ok (gp, pid) (text role_label) e1 c)
    as (e2 & R2 & P2 & X2).
  { rewrite (ext_sql_conf _ _ _ X1). exact Hc. }
  { rewrite (ext_session _ _ _ X1), (ext_n4j_conf _ _ _ X1). exact Hn. }
  rewrite (bind_ok _ _ _ _ _ R2).
  unfold if_tag at 1. rewrite Horg.
  assert (Htruthy : PyStr.truthy (Some org) = true).
  { simpl. destruct (String.eqb_spec org ""); [contradiction|reflexivity]. }
  rewrite Htruthy.
  destruct (add_organization_ok org e2) as (go & oid & e3 & R3 & P3 & X3).
  unfold bind at 1. unfold bind at 1.
  rewrite (bind_ok _ _ _ _ _ R3).
  unfold if_tag. rewrite Hloc. unfold bind at 1, ret at 1.
  destruct (add_affiliation_rel_ok (gp, pid) (go, oid) e3)
    as (e4 & R4 & P4 & X4).
  rewrite R4. unfold ret. simpl in P2, P4.
  exists pid, oid, e4. split; [reflexivity|].
  pose proof (ext_db _ _ _ X2) as D2. pose proof (ext_db _ _ _ X3) as D3.
  pose proof (ext_db _ _ _ X4) as D4.
  refine (conj _ (conj _ (conj _ (conj _ _)))).
  - apply (le_person _ _ D4), (le_person _ _ D3), (le_person _ _ D2), P1.
  - apply (le_org _ _ D4), P3.
  - apply (le_role _ _ D4), (le_role _ _ D3), P2.
  - exact P4.
  - change (extends e e4
              ([InsertPerson (text person); SelectPersonId (text person)] ++
               [InsertPersonRole (text role_label) c pid] ++
               [InsertOrganization org; SelectOrganizationId org] ++
               [InsertPersonOrganization oid pid])).
    eapply extends_trans; [exact X1|].
    eapply extends_trans; [exact X2|].
    eapply extends_trans; [exact X3|exact X4].
Qed.

End NoFailure.

Lemma process_lines_app rl pre post pending e :
  process_lines extract_type tagger sql_fails tx_result rl (pre ++ post)
    pending e =
  bind (process_lines extract_type tagger sql_fails tx_result rl pre pending)
    (process_lines extract_type tagger sql_fails tx_result rl post) e.
Proof.
  revert pending e. induction pre as [|l pre IH]; intros pending e; simpl.
  - reflexivity.
  - unfold bind.
    destruct (process_line _ _ _ _ _ _ _ e) as [[p'|x] e']; [|reflexivity].
    rewrite IH. reflexivity.
Qed.

Lemma for_each_app {A} (pre post : list A) (body : A -> M unit) e :
  for_each (pre ++ post) body e =
  bind (for_each pre body) (fun _ => for_each post body) e.
Proof.
  revert e. induction pre as [|x pre IH]; intros e; simpl.
  - reflexivity.
  - unfold bind. destruct (body x e) as [[u|err] e']; [|reflexivity].
    rewrite IH. reflexivity.
Qed.

(** An exception raised by one line leaves [process_block] at once. *)
Lemma process_block_raises rl pre line post pending e1 e2 x e3 :
  process_lines extract_type tagger sql_fails tx_result rl pre (None, None) e1
    = (Ok pending, e2) ->
  process_line extract_type tagger sql_fails tx_result rl pending line e2
    = (Raise x, e3) ->
  process_block extract_type tagger sql_fails tx_result rl
    (pre ++ line :: post) e1 = (Raise x, e3).
Proof.
  intros Hpre Hline. unfold process_block.
  rewrite process_lines_app. rewrite (bind_ok _ _ _ _ _ Hpre). simpl.
  now rewrite (bind_raise _ _ _ _ _ Hline).
Qed.

End Methods.

(** C2 on the code: with an open session, [add_organization] returns the
    graph identifier 102 and the relational identifier 3 for MIT, and the
    affiliation transaction is given 3, the relational identifier, where
    [update_org_loc] gives 102 to its transaction. *)
Theorem C2_affiliation_graph_write_uses_relational_org_id :
  let e1 := snd (add_person never_fails graph_ids "Alice" with_graph_store) in
  let e2 := snd (add_role_rel never_fails graph_ids (100, 1) "PC Chair" e1) in
  fst (add_person never_fails graph_ids "Alice" with_graph_store)
    = Ok (100, 1) /\
  fst (add_organization never_fails graph_ids "MIT" e2) = Ok (102, 3) /\
  graph (snd (process_pair stub_tagger never_fails graph_ids alice mit
                pc_chair with_graph_store))
    = [TxFn_create_person "Alice"; TxFn_create_role_rel 100 "PC Chair" 99;
       TxFn_create_organization "MIT"; TxFn_create_affiliation_rel 100 3] /\
  graph (snd (add_affiliation_rel never_fails graph_ids (100, 1) (102, 3)
                with_graph_store))
    = [TxFn_create_affiliation_rel 100 3] /\
  graph (snd (update_org_loc never_fails graph_ids (102, 3) "Boston"
                with_graph_store))
    = [TxFn_update_org_loc 102 "Boston"].
Proof. repeat split; vm_compute; reflexivity. Qed.




(** C7: for the content [Person("Alice"), Affiliation("MIT")] under the
    role label "PC Chair", with a tagger that tags MIT as an organization
    and a store that accepts every statement, [process_block] returns with
    no pending person and no pending affiliation, and the statements it
    executed are the insertion and lookup of Alice, one person-role fact
    (Alice, "PC Chair"), the insertion and lookup of MIT, and one
    affiliation fact (Alice, MIT); both facts are in the store. *)
Theorem C7_person_then_affiliation_pairs_once :
  forall extract_type tagger sql_fails tx_result role_label person affiliation
         e c,
    (forall q, sql_fails q = false) ->
    tagger "MIT" = [("MIT", "ORG")] ->
    text role_label = "PC Chair" ->
    active_label extract_type person = "Person" ->
    text person = "Alice" ->
    active_label extract_type affiliation = "Affiliation" ->
    text affiliation = "MIT" ->
    sql_conf_id e = Some c ->
    (is_Some (session e) -> is_Some (n4j_conf_id e)) ->
    exists pid oid e',
      process_block extract_type tagger sql_fails tx_result role_label
        [person; affiliation] e = (Ok (None, None), e') /\
      sql_log e' =
        sql_log e ++
        [InsertPerson "Alice"; SelectPersonId "Alice";
         InsertPersonRole "PC Chair" c pid;
         InsertOrganization "MIT"; SelectOrganizationId "MIT";
         InsertPersonOrganization oid pid] /\
      person_id_of "Alice" (Persons (cur e')) = Some pid /\
      org_id_of "MIT" (Organizations (cur e')) = Some oid /\
      In ("PC Chair", c, pid) (PersonRole (cur e')) /\
      In (oid, pid) (PersonOrganization (cur e')).
Proof.
  intros et tagger sql_fails tx_result rl person aff e c
         Hok Htag Hrole Hplabel Hptext Halabel Hatext Hc Hn.
  assert (Hparts : get_line_parts_flair tagger aff = {[ "ORG" := "MIT" ]}).
  { unfold get_line_parts_flair. rewrite Hatext. simpl. rewrite Htag.
    reflexivity. }
  destruct (process_pair_org tagger sql_fails tx_result Hok person aff rl
              "MIT" e c) as (pid & oid & e' & R & P & O & IR & IA & X);
    try assumption.
  { rewrite Hparts. reflexivity. }
  { discriminate. }
  { rewrite Hparts. reflexivity. }
  rewrite Hptext, Hrole in *.
  exists pid, oid, e'. split.
  - unfold process_block. simpl. unfold bind at 1.
    unfold process_line at 1. rewrite Hplabel. simpl. unfold ret at 1.
    unfold bind at 1. unfold process_line. rewrite Halabel. simpl.
    unfold bind. rewrite R. reflexivity.
  - split; [exact (ext_log _ _ _ X)|]. auto.
Qed.

Lemma C7_person_then_affiliation_pairs_once_witness :
  exists pid oid e',
    process_block "gold" stub_tagger never_fails graph_ids pc_chair
      [alice; mit] relational_only = (Ok (None, None), e') /\
    sql_log e' =
      sql_log relational_only ++
      [InsertPerson "Alice"; SelectPersonId "Alice";
       InsertPersonRole "PC Chair" 7 pid;
       InsertOrganization "MIT"; SelectOrganizationId "MIT";
       InsertPersonOrganization oid pid] /\
    person_id_of "Alice" (Persons (cur e')) = Some pid /\
    org_id_of "MIT" (Organizations (cur e')) = Some oid /\
    In ("PC Chair", 7, pid) (PersonRole (cur e')) /\
    In (oid, pid) (PersonOrganization (cur e')).
Proof.
  apply (C7_person_then_affiliation_pairs_once "gold" stub_tagger never_fails
           graph_ids pc_chair alice mit relational_only 7);
    try reflexivity.
  intros [s Hs]. discriminate Hs.
Defined.

(** On an empty store the block leaves exactly one row in each table. *)
Example pc_chair_block_on_empty_store :
  cur (snd (process_block "gold" stub_tagger never_fails graph_ids pc_chair
              [alice; mit] relational_only))
  = {| Persons := [(1, "Alice")];
       Organizations := [(1, "MIT", None)];
       PersonOrganization := [(1, 1)];
       PersonRole := [("PC Chair", 7, 1)] |}.
Proof. reflexivity. Qed.



(** The same name twice, then another case and another spacing. *)
Example add_person_four_times :
  let run n e := add_person never_fails graph_ids n e in
  let '(r1, e1) := run "Alice Wong" relational_only in
  let '(r2, e2) := run "Alice Wong" e1 in
  let '(r3, e3) := run "alice wong" e2 in
  let '(r4, e4) := run "Alice  Wong" e3 in
  (r1, r2, r3, r4) = (Ok (-1, 1), Ok (-1, 1), Ok (-1, 2), Ok (-1, 3)) /\
  Persons (cur e2) = Persons (cur e1) /\
  Persons (cur e4) = [(1, "Alice Wong"); (2, "alice wong"); (3, "Alice  Wong")].
Proof. repeat split. Qed.

End LineInfoExtractorProofs.

(** ** Strings: split and join *)

Module PyStrFacts.

Import PyStr.

Lemma append_assoc (a b c : string) :
  ((a ++ b) ++ c = a ++ (b ++ c))%string.
Proof.
  induction a as [|x a IH]; [reflexivity|].
  change (String x ((a ++ b) ++ c) = String x (a ++ (b ++ c)))%string.
  now rewrite IH.
Qed.

Lemma split_nonempty sep s : split sep s <> [].
Proof.
  destruct s as [|c s]; simpl; [discriminate|].
  destruct (Ascii.eqb c sep); [discriminate|].
  destruct (split sep s); discriminate.
Qed.

Lemma join_cons sep p ps :
  ps <> [] -> join sep (p :: ps) = (p ++ sep ++ join sep ps)%string.
Proof. destruct ps; [congruence|reflexivity]. Qed.

Lemma join_push sep c tok toks :
  join sep (String c tok :: toks) = String c (join sep (tok :: toks)).
Proof. destruct toks; reflexivity. Qed.

Lemma join_snoc sep l x :
  l <> [] -> join sep (l ++ [x]) = (join sep l ++ sep ++ x)%string.
Proof.
  induction l as [|p l IH]; [congruence|]. intros _.
  destruct l as [|q l].
  - reflexivity.
  - change ((p :: q :: l) ++ [x]) with (p :: ((q :: l) ++ [x])).
    rewrite join_cons by (simpl; discriminate).
    rewrite IH by discriminate.
    rewrite (join_cons sep p (q :: l)) by discriminate.
    now rewrite !append_assoc.
Qed.

(** Joining the pieces with the separator gives the string back. *)
Lemma join_split s : join " " (split " " s) = s.
Proof.
  induction s as [|c s IH]; simpl; [reflexivity|].
  destruct (Ascii.eqb_spec c " ") as [->|Hc].
  - rewrite join_cons by apply split_nonempty. now rewrite IH.
  - destruct (split " " s) as [|tok toks] eqn:E.
    + now apply split_nonempty in E.
    + rewrite join_push. now rewrite IH.
Qed.

End PyStrFacts.

(** ** API *)

Module APIProofs.

Import API PyStr PyStrFacts SpaceTokens Samples.

Lemma split_cut_first s :
  split " " s =
  match cut_first_space s with
  | Some (first, others) => first :: split " " others
  | None => [s]
  end.
Proof.
  induction s as [|c s IH]; simpl; [reflexivity|].
  destruct (Ascii.eqb c " "); [reflexivity|].
  rewrite IH. now destruct (cut_first_space s) as [[b a]|].
Qed.

Lemma split_cut_last s :
  split " " s =
  match cut_last_space s with
  | Some (others, last) => split " " others ++ [last]
  | None => [s]
  end.
Proof.
  induction s as [|c s IH]; simpl; [reflexivity|].
  rewrite IH. destruct (cut_last_space s) as [[b a]|].
  - simpl. destruct (Ascii.eqb c " "); [reflexivity|].
    destruct (split " " b) as [|tok toks] eqn:E; [|reflexivity].
    now apply split_nonempty in E.
  - destruct (Ascii.eqb c " "); reflexivity.
Qed.

(** [permute1] of the code is the string with the part before its
    first space moved behind the rest. *)
Lemma permute1_first_token_to_end s first others :
  split " " s = first :: others ->
  join " " (others ++ [first]) = first_token_to_end s.
Proof.
  rewrite split_cut_first. unfold first_token_to_end.
  destruct (cut_first_space s) as [[b a]|].
  - intros [= <- <-]. rewrite join_snoc by apply split_nonempty.
    now rewrite join_split.
  - now intros [= <- <-].
Qed.

(** [permute2] of the code is the string with the part after its last
    space moved in front of the rest. *)
Lemma permute2_last_token_to_front s :
  join " " ([List.last (split " " s) ""] ++ removelast (split " " s))
  = last_token_to_front s.
Proof.
  rewrite split_cut_last. unfold last_token_to_front.
  destruct (cut_last_space s) as [[b a]|].
  - rewrite last_last, removelast_last. simpl app.
    rewrite join_cons by apply split_nonempty. now rewrite join_split.
  - reflexivity.
Qed.

Lemma levenshtein_refl s : levenshtein s s = 0%nat.
Proof.
  induction s as [|c s IH]; simpl; [reflexivity|].
  now rewrite Ascii.eqb_refl.
Qed.

Lemma editdistance_eval_nonneg a b : 0 <= editdistance_eval a b.
Proof. unfold editdistance_eval. lia. Qed.

Lemma min3_nonneg a b c : 0 <= a -> 0 <= b -> 0 <= c -> 0 <= min3 a b c.
Proof. unfold min3. lia. Qed.

(** C8, as stated, fails: the tokens of the code are the pieces between
    single spaces.  A tab does not separate tokens, and two spaces in a row
    enclose an empty token that stays in the permuted names. *)
Lemma C8_whitespace_tokens_differ :
  NameDisambiguatorSpec.whitespace_tokens ("Li" ++ tab ++ "Wei")%string = ["Li"; "Wei"] /\
  NameDisambiguatorSpec.similarity_spec ("Li" ++ tab ++ "Wei")%string "Wei Li" = 0 /\
  similarity ("Li" ++ tab ++ "Wei")%string "Wei Li" = Some 5 /\
  NameDisambiguatorSpec.similarity_spec "Li  Wei" "Wei Li" = 0 /\
  similarity "Li  Wei" "Wei Li" = Some 1 /\
  similarity ("Li" ++ tab ++ "Wei")%string "Wei Li" <>
    Some (NameDisambiguatorSpec.similarity_spec ("Li" ++ tab ++ "Wei")%string "Wei Li").
Proof. repeat split; vm_compute; try reflexivity. discriminate. Qed.

(** C8, amended: [similarity name1 name2] is the minimum of three edit
    distances between lowercased strings: [name1] against [name2], [name1]
    with the part before its first space moved to the end against [name2],
    and [name1] with the part after its last space moved to the front
    against [name2] (tokens are delimited by single space characters only;
    a name without a space is its own permutation).  The result is not
    negative, and [similarity "John Smith" "Smith John"] is 0. *)
Theorem C8_similarity_min_of_three_space_tokens :
  forall name1 name2,
    similarity name1 name2 =
      Some (min3
              (editdistance_eval (lower name1) (lower name2))
              (editdistance_eval (lower (first_token_to_end name1))
                 (lower name2))
              (editdistance_eval (lower (last_token_to_front name1))
                 (lower name2))) /\
    (exists d, similarity name1 name2 = Some d /\ 0 <= d) /\
    similarity "John Smith" "Smith John" = Some 0.
Proof.
  intros name1 name2.
  assert (Heq : similarity name1 name2 =
      Some (min3
              (editdistance_eval (lower name1) (lower name2))
              (editdistance_eval (lower (first_token_to_end name1))
                 (lower name2))
              (editdistance_eval (lower (last_token_to_front name1))
                 (lower name2)))).
  { unfold similarity.
    pose proof (permute2_last_token_to_front name1) as H2.
    destruct (split " " name1) as [|first others] eqn:E.
    - now apply split_nonempty in E.
    - rewrite (permute1_first_token_to_end name1 first others E).
      now rewrite H2. }
  split; [exact Heq|]. split.
  - eexists. split; [exact Heq|].
    apply min3_nonneg; apply editdistance_eval_nonneg.
  - vm_compute. reflexivity.
Qed.

Section Providers.

Variable aminer_search : string -> list AminerPerson.
Variable scholarly_search_author : string -> list Author.
Variable orcid_search : string -> Z -> Z -> list string.
Variable orcid_record : string -> OrcidRecord.
Variable list_of_set : list string -> list string.

Lemma gscholar_loop_length authors :
  forall i n collated,
    (List.length (gscholar_loop authors i n collated)
     <= List.length collated + Z.to_nat (n - i))%nat.
Proof.
  induction authors as [|a authors IH]; intros i n collated; simpl; [lia|].
  destruct (Z.ltb_spec i n); [|lia].
  etransitivity; [apply IH|]. rewrite length_app. simpl. lia.
Qed.

Lemma gscholar_person_length name n :
  (List.length (gscholar_person scholarly_search_author name n)
   <= Z.to_nat n)%nat.
Proof.
  unfold gscholar_person.
  etransitivity; [apply gscholar_loop_length|]. simpl. lia.
Qed.

Lemma aminer_person_length name n :
  0 <= n ->
  (List.length (aminer_person aminer_search name n) <= Z.to_nat n)%nat.
Proof.
  intros Hn. unfold aminer_person, slice_to. rewrite length_map.
  destruct (Z.ltb_spec n 0); [lia|]. rewrite length_take. lia.
Qed.

End Providers.

(** C10: the result of [get_person_results] is the same for any two
    values of [org] and of [num_to_search]: it is built from the three
    provider lists obtained with the bound 5, so AMiner and Google Scholar
    contribute at most five candidates each. *)
Theorem C10_get_person_results_ignores_count_and_org :
  forall aminer_search scholarly_search_author orcid_search orcid_record
         list_of_set person_name org1 org2 n1 n2,
    get_person_results aminer_search scholarly_search_author orcid_search
      orcid_record list_of_set person_name org1 n1
    = get_person_results aminer_search scholarly_search_author orcid_search
        orcid_record list_of_set person_name org2 n2 /\
    get_person_results aminer_search scholarly_search_author orcid_search
      orcid_record list_of_set person_name org1 n1
    = map (Person_of_tuple "orcid")
        (orcid_person orcid_search orcid_record list_of_set person_name 5)
      ++ map (Person_of_tuple "aminer_id")
           (aminer_person aminer_search person_name 5)
      ++ map (Person_of_tuple "gscholar_id")
           (gscholar_person scholarly_search_author person_name 5) /\
    orcid_person orcid_search orcid_record list_of_set person_name 5 =
      map (fun orcid =>
             (orcid,
              (default "" (given_names (orcid_record orcid)) ++ " " ++
               default "" (family_name (orcid_record orcid)))%string,
              list_of_set (affiliation_names (orcid_record orcid)),
              list_of_set (keyword_contents (orcid_record orcid))))
          (orcid_search person_name 0 5) /\
    (List.length (aminer_person aminer_search person_name 5) <= 5)%nat /\
    (List.length (gscholar_person scholarly_search_author person_name 5)
     <= 5)%nat.
Proof.
  intros. split; [reflexivity|]. split; [|split; [|split]].
  - unfold get_person_results. rewrite !map_app, !map_map. reflexivity.
  - reflexivity.
  - apply (aminer_person_length aminer_search person_name 5). lia.
  - apply (gscholar_person_length scholarly_search_author person_name 5).
Qed.

End APIProofs.

(** ** BlockExtractor: further properties *)

Module BlockExtractorMore.

Import BlockExtractor LineDictFacts BlockExtractorProofs Samples.

Section Grouping.

Variable extract_type : string.
Variables indent_diff_thresh lnum_diff_thresh : Z.

Abbreviation step' :=
  (group_step extract_type indent_diff_thresh lnum_diff_thresh).
Abbreviation events' :=
  (accepted_from extract_type indent_diff_thresh lnum_diff_thresh).

(** Before a role label is seen the loop changes nothing. *)
Lemma fold_before_role_label pre :
  Forall (fun l => active_label extract_type l <> "Role-Label") pre ->
  fold_left step' pre (group_init) = group_init.
Proof.
  induction 1 as [|l pre Hl _ IH]; simpl; [reflexivity|].
  unfold group_step at 2. simpl.
  apply String.eqb_neq in Hl. rewrite Hl. exact IH.
Qed.

(** When no line can pass the test, the dictionary stays as it is. *)
Lemma fold_nothing_accepted lines :
  (forall line prev rl,
      within_threshold indent_diff_thresh lnum_diff_thresh line prev rl = false) ->
  forall st, mapping (fold_left step' lines st) = mapping st.
Proof.
  intros Hno. induction lines as [|l lines IH]; intros st; simpl; [reflexivity|].
  rewrite IH. unfold group_step.
  destruct (String.eqb _ _); [reflexivity|].
  destruct (role_label st); [|reflexivity].
  destruct (prev_labelled st); [|reflexivity].
  now rewrite Hno.
Qed.

(** The lines accepted under a key come in the order of the input. *)
Lemma accepted_under_sublist k lines :
  forall rl prev, sublist (accepted_under k (events' rl prev lines)) lines.
Proof.
  induction lines as [|l lines IH]; intros rl prev; simpl.
  - constructor.
  - destruct (String.eqb _ _); [apply sublist_cons, IH|].
    destruct rl as [r|]; [|apply sublist_cons, IH].
    destruct prev as [p|]; [|apply sublist_cons, IH].
    destruct (within_threshold _ _ l p r); [|apply sublist_cons, IH].
    unfold accepted_under. simpl.
    destruct (LineDict.same_line r k); simpl.
    + apply sublist_skip, IH.
    + apply sublist_cons, IH.
Qed.

End Grouping.

Lemma insert_by_id_In l x xs : In x (insert_by_id l xs) <-> x = l \/ In x xs.
Proof.
  induction xs as [|y xs IH]; simpl; [intuition|].
  destruct (id l <? id y); simpl; [intuition|]. rewrite IH. intuition.
Qed.

Lemma order_by_id_In x xs : In x (order_by_id xs) <-> In x xs.
Proof.
  induction xs as [|y xs IH]; simpl; [reflexivity|].
  rewrite insert_by_id_In, IH. intuition.
Qed.

Lemma insert_by_id_Permutation l xs : Permutation (insert_by_id l xs) (l :: xs).
Proof.
  induction xs as [|y xs IH]; simpl; [reflexivity|].
  destruct (id l <? id y); [reflexivity|].
  rewrite IH. apply perm_swap.
Qed.

Lemma order_by_id_Permutation xs : Permutation (order_by_id xs) xs.
Proof.
  induction xs as [|y xs IH]; simpl; [reflexivity|].
  rewrite insert_by_id_Permutation. now constructor.
Qed.

Lemma insert_by_id_sorted l xs :
  StronglySorted (fun a b => id a <= id b) xs ->
  StronglySorted (fun a b => id a <= id b) (insert_by_id l xs).
Proof.
  induction 1 as [|y xs Hs IH Hy]; simpl.
  - repeat constructor.
  - destruct (Z.ltb_spec (id l) (id y)).
    + constructor; [now constructor|].
      constructor; [lia|].
      eapply List.Forall_impl; [|exact Hy]. simpl. intros; lia.
    + constructor; [exact IH|].
      apply List.Forall_forall. intros x Hx.
      apply insert_by_id_In in Hx as [->|Hx]; [lia|].
      rewrite List.Forall_forall in Hy. now apply Hy.
Qed.

Lemma order_by_id_sorted xs :
  StronglySorted (fun a b => id a <= id b) (order_by_id xs).
Proof.
  induction xs as [|y xs IH]; simpl; [constructor|].
  now apply insert_by_id_sorted.
Qed.

Lemma select_page_lines_In field db pid l :
  In l (select_page_lines field db pid) <->
  In l (PageLines db) /\ page_id l = pid /\ text l <> "" /\
  field l <> "Undefined".
Proof.
  unfold select_page_lines. rewrite order_by_id_In, filter_In.
  rewrite !andb_true_iff, !negb_true_iff, Z.eqb_eq, !String.eqb_neq.
  tauto.
Qed.

Lemma in_concat_map {A B} (f : A -> list B) xs y :
  In y (concat (map f xs)) <-> exists x, In x xs /\ In y (f x).
Proof.
  rewrite in_concat. split.
  - intros (l & Hl & Hy). apply in_map_iff in Hl as (x & <- & Hx). eauto.
  - intros (x & Hx & Hy). exists (f x). split; [now apply in_map|exact Hy].
Qed.

(** X1: lines that come before the first role label belong to no
    block: they can be removed from the input without changing the result,
    and an input without any role label gives the empty mapping. *)
Theorem lines_before_first_role_label_are_dropped :
  forall extract_type it lt pre rest,
    Forall (fun l => active_label extract_type l <> "Role-Label") pre ->
    group extract_type it lt (pre ++ rest) = group extract_type it lt rest /\
    group extract_type it lt pre = [].
Proof.
  intros et it lt pre rest Hpre. unfold group, group_lines.
  rewrite fold_left_app, !fold_before_role_label by exact Hpre.
  split; reflexivity.
Qed.

Lemma lines_before_first_role_label_are_dropped_witness :
  group "gold" 10 10 ([chain_l1; chain_l2] ++ [chain_rl; chain_l1])
    = group "gold" 10 10 [chain_rl; chain_l1] /\
  group "gold" 10 10 [chain_l1; chain_l2] = [].
Proof.
  apply (lines_before_first_role_label_are_dropped "gold" 10 10
           [chain_l1; chain_l2] [chain_rl; chain_l1]).
  repeat constructor; discriminate.
Defined.

(** X2: both comparisons are strict, so with an indent threshold or a
    line-number threshold of zero or less no line is ever accepted and the
    mapping is empty, whatever the input. *)
Theorem non_positive_threshold_accepts_nothing :
  forall extract_type it lt lines,
    it <= 0 \/ lt <= 0 ->
    group extract_type it lt lines = [].
Proof.
  intros et it lt lines Hle. unfold group, group_lines.
  rewrite fold_nothing_accepted; [reflexivity|].
  intros line prev rl. unfold within_threshold.
  apply andb_false_iff. rewrite !Z.ltb_ge. lia.
Qed.

Lemma non_positive_threshold_accepts_nothing_witness :
  group "gold" 0 10 [chain_rl; chain_l1; chain_l2] = [].
Proof.
  apply (non_positive_threshold_accepts_nothing "gold" 0 10
           [chain_rl; chain_l1; chain_l2]).
  left. lia.
Defined.

(** X3: the content of a block is a subsequence of the input: the
    lines of an entry appear in the order, and at most as often, as they
    appear in the line sequence. *)
Theorem block_content_keeps_input_order :
  forall extract_type it lt lines k v,
    LineDict.get k (group extract_type it lt lines) = Some v ->
    sublist v lines.
Proof.
  intros et it lt lines k v. rewrite group_entries. unfold entry_of, accepted.
  pose proof (accepted_under_sublist et it lt k lines None None) as H.
  destruct (accepted_under k _); [discriminate|].
  now intros [= <-].
Qed.

Lemma block_content_keeps_input_order_witness :
  sublist [far_l1; far_l2] [chain_rl; far_l1; far_l2].
Proof.
  apply (block_content_keeps_input_order "gold" 10 10
           [chain_rl; far_l1; far_l2] chain_rl [far_l1; far_l2]).
  reflexivity.
Defined.

(** X4: in the modes ['gold'] and ['dl_prediction'], a line is returned
    for a conference exactly when it is a row of [PageLines] with
    non-empty text, a value other than ['Undefined'] in the column of the
    mode, and the page of a [ConferencePages] row of that conference. *)
Theorem get_relevant_lines_membership :
  forall db conf l,
    (In l (get_relevant_lines "gold" db conf) <->
     In l (PageLines db) /\ text l <> "" /\ label l <> "Undefined" /\
     In (page_id l, conf) (ConferencePages db)) /\
    (In l (get_relevant_lines "dl_prediction" db conf) <->
     In l (PageLines db) /\ text l <> "" /\ dl_prediction l <> "Undefined" /\
     In (page_id l, conf) (ConferencePages db)).
Proof.
  intros db conf l.
  assert (Hpage : forall p, In p (select_page_ids db conf) <->
                            In (p, conf) (ConferencePages db)).
  { intros p. unfold select_page_ids. rewrite in_map_iff. split.
    - intros ([i c] & <- & Hin). apply filter_In in Hin as [Hin Hc].
      simpl in *. apply Z.eqb_eq in Hc. now subst.
    - intros Hin. exists (p, conf). split; [reflexivity|].
      apply filter_In. split; [exact Hin|]. simpl. apply Z.eqb_refl. }
  unfold get_relevant_lines.
  rewrite get_relevant_lines_loop_gold, get_relevant_lines_loop_dl.
  simpl app. rewrite !in_concat_map. split; split.
  - intros (p & Hp & Hl). apply select_page_lines_In in Hl as (? & <- & ? & ?).
    rewrite <- Hpage. tauto.
  - intros (? & ? & ? & Hp). exists (page_id l). rewrite Hpage.
    split; [exact Hp|]. apply select_page_lines_In. tauto.
  - intros (p & Hp & Hl). apply select_page_lines_In in Hl as (? & <- & ? & ?).
    rewrite <- Hpage. tauto.
  - intros (? & ? & ? & Hp). exists (page_id l). rewrite Hpage.
    split; [exact Hp|]. apply select_page_lines_In. tauto.
Qed.

(** X5: the lines selected for one page are the rows that pass the
    filter, each as often as it occurs, in ascending order of [id]. *)
Theorem select_page_lines_sorted_by_id :
  forall field db pid,
    StronglySorted (fun a b => id a <= id b) (select_page_lines field db pid) /\
    Permutation (select_page_lines field db pid)
      (List.filter
         (fun l => (Z.eqb (page_id l) pid
                    && negb (String.eqb (text l) "")
                    && negb (String.eqb (field l) "Undefined"))%bool)
         (PageLines db)).
Proof.
  intros. split; [apply order_by_id_sorted|apply order_by_id_Permutation].
Qed.

(** X6: an extraction type other than ['gold'] and ['dl_prediction']
    (a misspelt one, or ['svm_prediction']) yields no line, hence no block,
    for every store and conference. *)
Theorem other_extraction_types_yield_nothing :
  forall extract_type db conf it lt,
    extract_type <> "dl_prediction" -> extract_type <> "gold" ->
    get_relevant_lines extract_type db conf = [] /\
    get_relevant_blocks extract_type db conf it lt = [].
Proof.
  intros et db conf it lt Hdl Hgold.
  assert (H : get_relevant_lines et db conf = []).
  { unfold get_relevant_lines.
    destruct (select_page_ids db conf); simpl; [reflexivity|].
    apply String.eqb_neq in Hdl, Hgold. now rewrite Hdl, Hgold. }
  split; [exact H|]. unfold get_relevant_blocks. now rewrite H.
Qed.

Lemma other_extraction_types_yield_nothing_witness :
  get_relevant_lines "Gold" one_page_db 7 = [] /\
  get_relevant_blocks "Gold" one_page_db 7 10 10 = [].
Proof.
  apply (other_extraction_types_yield_nothing "Gold" one_page_db 7 10 10);
    discriminate.
Defined.

End BlockExtractorMore.

(** ** LineInfoExtractor: what every method keeps *)

Module RespectsFacts.

Import LineInfoExtractor SqlFacts LineInfoExtractorProofs.

Section Respects.

Variable extract_type : string.
Variable tagger : string -> list (string * string).
Variable sql_fails : SqlStmt -> bool.
Variable tx_result : list GraphTx -> GraphTx -> Z.

Variable R : Extractor -> Extractor -> Prop.
Hypothesis R_refl : forall e, R e e.
Hypothesis R_trans : forall a b c, R a b -> R b c -> R a c.
Hypothesis R_sql :
  forall q e, R e (with_cur (fst (sql_apply q (cur e))) q e).
Hypothesis R_graph :
  forall tx e, session e <> None -> R e (with_graph (graph e ++ [tx]) e).

Lemma respects_ret {A} (a : A) : respects R (ret a).
Proof. intros e. apply R_refl. Qed.

Lemma respects_raise {A} x : respects R (@raise A x).
Proof. intros e. apply R_refl. Qed.

Lemma respects_gets {A} (f : Extractor -> A) : respects R (gets f).
Proof. intros e. apply R_refl. Qed.

Lemma respects_bind {A B} (c : M A) (k : A -> M B) :
  respects R c -> (forall a, respects R (k a)) -> respects R (bind c k).
Proof.
  intros Hc Hk e. unfold bind. specialize (Hc e).
  destruct (c e) as [[a|x] e']; simpl in *; [|exact Hc].
  eapply R_trans; [exact Hc|apply Hk].
Qed.

Lemma respects_execute q : respects R (execute sql_fails q).
Proof.
  intros e. unfold execute. destruct (sql_fails q); [apply R_refl|].
  pose proof (R_sql q e) as H.
  destruct (sql_apply q (cur e)) as [db row]. exact H.
Qed.

Lemma respects_first_column row : respects R (first_column row).
Proof. destruct row; [apply respects_ret|apply respects_raise]. Qed.

Lemma respects_write_transaction tx :
  respects R (write_transaction tx_result tx).
Proof.
  intros e. unfold write_transaction.
  destruct (session e) eqn:S; [|apply R_refl].
  apply R_graph. congruence.
Qed.

Lemma respects_attribute {A} (f : Extractor -> option A) :
  respects R (attribute f).
Proof. intros e. unfold attribute. destruct (f e); apply R_refl. Qed.

Lemma respects_if_tag {A} lp tag (body : string -> M A) :
  (forall v, respects R (body v)) -> respects R (if_tag lp tag body).
Proof.
  intros Hb. unfold if_tag. destruct (lp !! tag); [|apply respects_ret].
  destruct (PyStr.truthy _); [|apply respects_ret].
  apply respects_bind; [apply Hb|intros; apply respects_ret].
Qed.

Ltac respect :=
  repeat first
    [ apply respects_ret | apply respects_raise | apply respects_gets
    | apply respects_execute | apply respects_first_column
    | apply respects_write_transaction | apply respects_attribute
    | apply respects_bind; [|intros ?]
    | apply respects_if_tag; intros ?
    | match goal with
      | |- respects _ (if ?b then _ else _) => destruct b
      | |- respects _ (match ?o with Some _ => _ | None => _ end) => destruct o
      end ].

Lemma respects_add_person n : respects R (add_person sql_fails tx_result n).
Proof. unfold add_person, session_present. respect. Qed.

Lemma respects_add_organization n :
  respects R (add_organization sql_fails tx_result n).
Proof. unfold add_organization, session_present. respect. Qed.

Lemma respects_add_affiliation_rel p o :
  respects R (add_affiliation_rel sql_fails tx_result p o).
Proof. unfold add_affiliation_rel, session_present. respect. Qed.

Lemma respects_add_role_rel p role :
  respects R (add_role_rel sql_fails tx_result p role).
Proof. unfold add_role_rel, session_present. respect. Qed.

Lemma respects_update_org_loc o loc :
  respects R (LineInfoExtractor.update_org_loc sql_fails tx_result o loc).
Proof. unfold LineInfoExtractor.update_org_loc, session_present. respect. Qed.

Lemma respects_process_pair person aff rl :
  respects R (process_pair tagger sql_fails tx_result person aff rl).
Proof.
  unfold process_pair.
  apply respects_bind; [apply respects_add_person|intros ids].
  apply respects_bind; [apply respects_add_role_rel|intros _].
  apply respects_bind; [|intros; apply respects_ret].
  apply respects_if_tag. intros org.
  apply respects_bind; [apply respects_add_organization|intros oids].
  apply respects_bind; [|intros; apply respects_add_affiliation_rel].
  apply respects_if_tag. intros loc. apply respects_update_org_loc.
Qed.

Lemma respects_process_complex line rl :
  respects R (process_complex tagger sql_fails tx_result line rl).
Proof.
  unfold process_complex.
  apply respects_bind; [|intros pids].
  { apply respects_if_tag. intros per.
    apply respects_bind; [apply respects_add_person|intros ids].
    apply respects_bind; [apply respects_add_role_rel|intros _].
    apply respects_ret. }
  apply respects_bind; [|intros oids].
  { apply respects_if_tag. intros org.
    apply respects_bind; [apply respects_add_organization|intros ids].
    apply respects_bind; [|intros; apply respects_ret].
    apply respects_if_tag. intros loc. apply respects_update_org_loc. }
  destruct pids; [|apply respects_ret].
  destruct oids; [|apply respects_ret].
  apply respects_add_affiliation_rel.
Qed.

Lemma respects_process_line rl pending line :
  respects R
    (process_line extract_type tagger sql_fails tx_result rl pending line).
Proof.
  unfold process_line. destruct pending as [u_person u_aff].
  destruct (String.eqb _ "Complex").
  { apply respects_bind; [apply respects_process_complex|].
    intros; apply respects_ret. }
  destruct (String.eqb _ "Person").
  { destruct u_aff; [|apply respects_ret].
    apply respects_bind; [apply respects_process_pair|].
    intros; apply respects_ret. }
  destruct (String.eqb _ "Affiliation"); [|apply respects_ret].
  destruct u_person; [|apply respects_ret].
  apply respects_bind; [apply respects_process_pair|].
  intros; apply respects_ret.
Qed.

Lemma respects_process_lines rl content :
  forall pending,
    respects R
      (process_lines extract_type tagger sql_fails tx_result rl content pending).
Proof.
  induction content as [|l content IH]; intros pending; simpl.
  - apply respects_ret.
  - apply respects_bind; [apply respects_process_line|exact IH].
Qed.

Lemma respects_process_block rl content :
  respects R (process_block extract_type tagger sql_fails tx_result rl content).
Proof. apply respects_process_lines. Qed.

Lemma respects_for_each {A} (xs : list A) (body : A -> M unit) :
  (forall x, respects R (body x)) -> respects R (for_each xs body).
Proof.
  intros Hb. induction xs as [|x xs IH]; simpl; [apply respects_ret|].
  apply respects_bind; [apply Hb|intros _; exact IH].
Qed.

Lemma respects_process_blocks items :
  respects R (process_blocks extract_type tagger sql_fails tx_result items).
Proof.
  apply respects_for_each. intros [rl content]. simpl.
  apply respects_bind; [apply respects_process_block|].
  intros; apply respects_ret.
Qed.

End Respects.

End RespectsFacts.

(** ** LineInfoExtractor: the stores over a whole conference *)

Module ConferenceFacts.

Import LineInfoExtractor SqlFacts LineInfoExtractorProofs RespectsFacts Samples.

Lemma id_by_name_None_not_In {R} (key : R -> Z) (name_of : R -> string)
    n rows :
  id_by_name key name_of n rows = None -> ~ In n (map name_of rows).
Proof.
  unfold id_by_name. induction rows as [|r rows IH]; simpl; [tauto|].
  destruct (String.eqb_spec (name_of r) n) as [E|E]; [discriminate|].
  intros H [F|F]; [contradiction|now apply IH].
Qed.

Lemma NoDup_snoc {A} (l : list A) x :
  List.NoDup l -> ~ In x l -> List.NoDup (l ++ [x]).
Proof.
  intros Hl Hx. apply List.NoDup_app; [exact Hl|repeat constructor; simpl; tauto|].
  intros a Ha [<-|[]]. contradiction.
Qed.

Lemma existsb_false_not_In {A} (eqb : A -> A -> bool) x l :
  (forall y, eqb x y = true <-> x = y) ->
  existsb (eqb x) l = false -> ~ In x l.
Proof.
  intros Heq Hex Hin.
  assert (existsb (eqb x) l = true); [|congruence].
  apply existsb_exists. exists x. split; [exact Hin|now apply Heq].
Qed.

Lemma pair_eqb_eq a b : pair_eqb a b = true <-> a = b.
Proof.
  destruct a, b. unfold pair_eqb. simpl.
  rewrite andb_true_iff, !Z.eqb_eq. split; [intros []|intros [=]]; subst; auto.
Qed.

Lemma role_eqb_eq a b : role_eqb a b = true <-> a = b.
Proof.
  destruct a as [[r c] p], b as [[r' c'] p']. unfold role_eqb. simpl.
  rewrite !andb_true_iff, !Z.eqb_eq, String.eqb_eq.
  split; [intros [[] ?]|intros [=]]; subst; auto.
Qed.

Lemma map_update_key loc oid (rows : list (Z * string * option string)) :
  map (fun r => fst (fst r))
      (map (fun r : Z * string * option string =>
              if Z.eqb (fst (fst r)) oid then (fst r, Some loc) else r) rows)
  = map (fun r => fst (fst r)) rows.
Proof.
  rewrite map_map. apply map_ext. intros [[i n] l]. simpl.
  now destruct (Z.eqb i oid).
Qed.

Lemma map_update_name loc oid (rows : list (Z * string * option string)) :
  map (fun r => snd (fst r))
      (map (fun r : Z * string * option string =>
              if Z.eqb (fst (fst r)) oid then (fst r, Some loc) else r) rows)
  = map (fun r => snd (fst r)) rows.
Proof.
  rewrite map_map. apply map_ext. intros [[i n] l]. simpl.
  now destruct (Z.eqb i oid).
Qed.

(** Every statement keeps keys and names unique and the relations free
    of duplicates. *)
Lemma sql_apply_wf q db : wf_db db -> wf_db (fst (sql_apply q db)).
Proof.
  intros [Hpi Hpn Hoi Hon Ha Hr]. destruct q; simpl.
  - destruct (person_id_of name (Persons db)) eqn:E; simpl;
      [now constructor|].
    constructor; simpl; auto; rewrite map_app; simpl; apply NoDup_snoc; auto.
    + apply next_id_fresh.
    + now apply (id_by_name_None_not_In fst snd).
  - now constructor.
  - destruct (org_id_of name (Organizations db)) eqn:E; simpl;
      [now constructor|].
    constructor; simpl; auto; rewrite map_app; simpl; apply NoDup_snoc; auto.
    + apply next_id_fresh.
    + now apply (id_by_name_None_not_In (fun r => fst (fst r))
                   (fun r => snd (fst r))).
  - now constructor.
  - destruct (existsb _ _) eqn:E; simpl; [now constructor|].
    constructor; simpl; auto. apply NoDup_snoc; [exact Ha|].
    eapply existsb_false_not_In; [apply pair_eqb_eq|exact E].
  - destruct (existsb _ _) eqn:E; simpl; [now constructor|].
    constructor; simpl; auto. apply NoDup_snoc; [exact Hr|].
    eapply existsb_false_not_In; [apply role_eqb_eq|exact E].
  - constructor; simpl; auto.
    + now rewrite map_update_key.
    + now rewrite map_update_name.
Qed.

Section Conference.

Variable extract_type : string.
Variable tagger : string -> list (string * string).
Variable sql_fails : SqlStmt -> bool.
Variable tx_result : list GraphTx -> GraphTx -> Z.

Abbreviation run_conference :=
  (process_conference extract_type tagger sql_fails tx_result).
Abbreviation run_blocks :=
  (process_blocks extract_type tagger sql_fails tx_result).

(** [begin_conference] and [end_conference] do not touch the store. *)
Lemma begin_conference_cur c e :
  cur (snd (begin_conference tx_result c e)) = cur e.
Proof.
  unfold begin_conference, bind, gets, modify, add_conference,
    write_transaction, ret.
  simpl. destruct (driver e); reflexivity.
Qed.

Lemma end_conference_cur e : cur (snd (end_conference e)) = cur e.
Proof.
  unfold end_conference, bind, gets, modify, ret, raise.
  simpl. destruct (driver e); reflexivity.
Qed.

Section StoreRelation.

Variable Rdb : SqlDb -> SqlDb -> Prop.
Hypothesis Rdb_refl : forall db, Rdb db db.
Hypothesis Rdb_trans : forall a b c, Rdb a b -> Rdb b c -> Rdb a c.
Hypothesis Rdb_sql : forall q db, Rdb db (fst (sql_apply q db)).

(** A relation every statement keeps is kept by a whole conference. *)
Lemma process_conference_store c e :
  Rdb (cur e) (cur (snd (run_conference c e))).
Proof.
  unfold process_conference, bind.
  pose proof (begin_conference_cur c e) as Hb.
  destruct (begin_conference tx_result c e) as [[u|x] e0]; simpl in *;
    [|rewrite Hb; apply Rdb_refl].
  pose proof (respects_process_blocks extract_type tagger sql_fails tx_result
                (fun a b => Rdb (cur a) (cur b))
                (fun a => Rdb_refl (cur a))
                (fun a b d => Rdb_trans (cur a) (cur b) (cur d))
                (fun q a => Rdb_sql q (cur a))
                (fun tx a _ => Rdb_refl (cur a))
                (blocks c) e0) as Hblocks.
  simpl in Hblocks. rewrite Hb in Hblocks.
  destruct (run_blocks (blocks c) e0) as [[u'|x] e1]; simpl in *;
    [|exact Hblocks].
  now rewrite end_conference_cur.
Qed.

End StoreRelation.

End Conference.

(** X7: processing a conference never removes anything from the
    relational store, whether it returns or raises: a name keeps the
    identifier it had, and every person-role and person-organization row
    is still there. *)
Theorem process_conference_never_removes :
  forall extract_type tagger sql_fails tx_result c e,
    db_le (cur e)
      (cur (snd (process_conference extract_type tagger sql_fails tx_result
                   c e))).
Proof.
  intros. apply process_conference_store.
  - apply db_le_refl.
  - apply db_le_trans.
  - apply sql_apply_le.
Qed.

(** X8: if keys and names of persons and organizations are unique and
    the two relations hold no row twice before a conference is processed,
    the same holds afterwards, whether the run returns or raises. *)
Theorem process_conference_keeps_uniqueness :
  forall extract_type tagger sql_fails tx_result c e,
    wf_db (cur e) ->
    wf_db (cur (snd (process_conference extract_type tagger sql_fails
                       tx_result c e))).
Proof.
  intros et tagger sql_fails tx_result c e.
  apply (process_conference_store et tagger sql_fails tx_result
           (fun a b => wf_db a -> wf_db b)); auto.
  intros q db. apply sql_apply_wf.
Qed.

Lemma process_conference_keeps_uniqueness_witness :
  wf_db (cur (snd (process_conference "gold" stub_tagger alice_fails graph_ids
                     conf7 (new_extractor two_orgs_db false)))).
Proof.
  apply (process_conference_keeps_uniqueness "gold" stub_tagger alice_fails
           graph_ids conf7 (new_extractor two_orgs_db false)).
  constructor; simpl; repeat constructor; simpl; intuition discriminate.
Defined.

End ConferenceFacts.

(** ** LineInfoExtractor: the graph session *)

Module SessionFacts.

Import LineInfoExtractor SqlFacts LineInfoExtractorProofs RespectsFacts Samples.

Lemma quiet_refl e : quiet e e.
Proof. unfold quiet. auto. Qed.

Lemma quiet_trans a b c : quiet a b -> quiet b c -> quiet a c.
Proof.
  unfold quiet. intros (D1 & S1 & N1 & G1) (D2 & S2 & N2 & G2).
  repeat split; try congruence.
  intros Ha. rewrite G2, G1; congruence.
Qed.

Lemma quiet_sql q e : quiet e (with_cur (fst (sql_apply q (cur e))) q e).
Proof. unfold quiet. simpl. auto. Qed.

Lemma quiet_graph tx e :
  session e <> None -> quiet e (with_graph (graph e ++ [tx]) e).
Proof. unfold quiet. simpl. intuition. Qed.

Section Conference.

Variable extract_type : string.
Variable tagger : string -> list (string * string).
Variable sql_fails : SqlStmt -> bool.
Variable tx_result : list GraphTx -> GraphTx -> Z.

(** The blocks of a conference leave the driver, the session and the
    identifier of the conference node as they are, and run no transaction
    without a session. *)
Lemma process_blocks_quiet items e :
  quiet e (snd (process_blocks extract_type tagger sql_fails tx_result items e)).
Proof.
  apply (respects_process_blocks extract_type tagger sql_fails tx_result quiet
           quiet_refl quiet_trans quiet_sql quiet_graph).
Qed.

Lemma begin_conference_without_driver c e :
  driver e = false ->
  begin_conference tx_result c e = (Ok tt, with_conference c e).
Proof.
  intros D. unfold begin_conference, bind, gets, modify, ret. now rewrite D.
Qed.

Lemma begin_conference_with_driver c e :
  driver e = true ->
  exists e0,
    begin_conference tx_result c e = (Ok tt, e0) /\
    driver e0 = true /\ session e0 = Some {| closed := false |} /\
    graph e0 = graph e ++ [TxFn_create_conference (n4j_attrs c)] /\
    n4j_conf_id e0 =
      Some (tx_result (graph e) (TxFn_create_conference (n4j_attrs c))).
Proof.
  intros D. unfold begin_conference, bind, gets, modify, add_conference,
    write_transaction, ret.
  rewrite D. simpl. eexists. split; [reflexivity|]. simpl. auto.
Qed.

End Conference.

(** X9: without a driver a conference is processed in the relational
    store only: no graph transaction is run and no session is opened,
    whether the run returns or raises. *)
Theorem without_driver_graph_is_untouched :
  forall extract_type tagger sql_fails tx_result c e,
    driver e = false -> session e = None ->
    graph (snd (process_conference extract_type tagger sql_fails tx_result
                  c e)) = graph e /\
    session (snd (process_conference extract_type tagger sql_fails tx_result
                    c e)) = None.
Proof.
  intros et tagger sql_fails tx_result c e D S.
  unfold process_conference.
  rewrite (bind_ok _ _ _ _ _ (begin_conference_without_driver tx_result c e D)).
  pose proof (process_blocks_quiet et tagger sql_fails tx_result (blocks c)
                (with_conference c e)) as (D1 & S1 & _ & G1).
  simpl in D1, S1, G1. specialize (G1 S).
  unfold bind.
  destruct (process_blocks et tagger sql_fails tx_result (blocks c)
              (with_conference c e)) as [[u|x] e1]; simpl in *.
  - unfold end_conference, bind, gets, ret. rewrite D1, D. simpl.
    split; congruence.
  - split; congruence.
Qed.

Lemma without_driver_graph_is_untouched_witness :
  graph (snd (process_conference "gold" stub_tagger never_fails graph_ids
                conf7 (new_extractor empty_db false))) = [] /\
  session (snd (process_conference "gold" stub_tagger never_fails graph_ids
                  conf7 (new_extractor empty_db false))) = None.
Proof.
  apply (without_driver_graph_is_untouched "gold" stub_tagger never_fails
           graph_ids conf7 (new_extractor empty_db false)); reflexivity.
Defined.

(** X10: with a driver, [process_conference] opens a session and runs
    [create_conference] as its first transaction; the session is closed
    when the run returns, and it is left open when the run raises. *)
Theorem session_is_closed_only_on_success :
  forall extract_type tagger sql_fails tx_result c e,
    driver e = true ->
    session (snd (process_conference extract_type tagger sql_fails tx_result
                    c e))
    = Some {| closed :=
                is_ok (process_conference extract_type tagger sql_fails
                         tx_result c e) |} /\
    exists later,
      graph (snd (process_conference extract_type tagger sql_fails tx_result
                    c e))
      = graph e ++ TxFn_create_conference (n4j_attrs c) :: later.
Proof.
  intros et tagger sql_fails tx_result c e D.
  destruct (begin_conference_with_driver tx_result c e D)
    as (e0 & Hb & D0 & S0 & G0 & _).
  unfold process_conference. rewrite (bind_ok _ _ _ _ _ Hb).
  pose proof (process_blocks_quiet et tagger sql_fails tx_result (blocks c) e0)
    as (D1 & S1 & _ & _).
  assert (Hg : exists later,
             graph (snd (process_blocks et tagger sql_fails tx_result
                           (blocks c) e0)) = graph e0 ++ later).
  { apply (respects_process_blocks et tagger sql_fails tx_result
             (fun a b => exists later, graph b = graph a ++ later)).
    - intros a. exists []. now rewrite app_nil_r.
    - intros a b d [l1 H1] [l2 H2]. exists (l1 ++ l2).
      now rewrite H2, H1, app_assoc.
    - intros q a. exists []. simpl. now rewrite app_nil_r.
    - intros tx a _. exists [tx]. reflexivity. }
  destruct Hg as [later Hg]. unfold bind.
  destruct (process_blocks et tagger sql_fails tx_result (blocks c) e0)
    as [[u|x] e1]; simpl in *.
  - unfold end_conference, bind, gets, modify, ret. rewrite D1, D0. simpl.
    split; [reflexivity|]. exists later.
    now rewrite Hg, G0, <- app_assoc.
  - split; [congruence|]. exists later. now rewrite Hg, G0, <- app_assoc.
Qed.

Lemma session_is_closed_only_on_success_witness :
  session (snd (process_conference "gold" stub_tagger alice_fails graph_ids
                  conf7 (new_extractor empty_db true)))
  = Some {| closed :=
              is_ok (process_conference "gold" stub_tagger alice_fails
                       graph_ids conf7 (new_extractor empty_db true)) |} /\
  exists later,
    graph (snd (process_conference "gold" stub_tagger alice_fails graph_ids
                  conf7 (new_extractor empty_db true)))
    = graph (new_extractor empty_db true)
      ++ TxFn_create_conference (n4j_attrs conf7) :: later.
Proof.
  apply (session_is_closed_only_on_success "gold" stub_tagger alice_fails
           graph_ids conf7 (new_extractor empty_db true)).
  reflexivity.
Defined.

(** With a store that rejects Alice the session of conference 7 stays
    open; with a store that accepts everything it is closed. *)
Example session_after_conference7 :
  session (snd (process_conference "gold" stub_tagger alice_fails graph_ids
                  conf7 (new_extractor empty_db true)))
    = Some {| closed := false |} /\
  session (snd (process_conference "gold" stub_tagger never_fails graph_ids
                  conf7 (new_extractor empty_db true)))
    = Some {| closed := true |}.
Proof. split; reflexivity. Qed.

End SessionFacts.

(** ** LineInfoExtractor: the pairing of persons and affiliations *)

Module PairingFacts.

Import LineInfoExtractor SqlFacts LineInfoExtractorProofs RespectsFacts Samples.

#[local] Arguments sql_apply : simpl never.

Lemma last_labelled_cons et lab l ls :
  last_labelled et lab (l :: ls) =
  match last_labelled et lab ls with
  | Some x => Some x
  | None => if String.eqb (active_label et l) lab then Some l else None
  end.
Proof.
  unfold last_labelled. simpl.
  generalize (rev ls). intros r. induction r as [|x r IH]; simpl.
  - reflexivity.
  - destruct (String.eqb (active_label et x) lab); [reflexivity|exact IH].
Qed.

Section Blocks.

Variable extract_type : string.
Variable tagger : string -> list (string * string).
Variable sql_fails : SqlStmt -> bool.
Variable tx_result : list GraphTx -> GraphTx -> Z.

Abbreviation lines_from :=
  (process_lines extract_type tagger sql_fails tx_result).
Abbreviation one_line :=
  (process_line extract_type tagger sql_fails tx_result).

(** A line whose label is not acted on leaves everything as it is. *)
Lemma process_line_unexpected rl pending line e :
  expected_label (active_label extract_type line) = false ->
  one_line rl pending line e = (Ok pending, e).
Proof.
  unfold expected_label, process_line. destruct pending as [p a].
  intros H. apply orb_false_iff in H as [H Ha].
  apply orb_false_iff in H as [Hc Hp].
  now rewrite Hc, Hp, Ha.
Qed.

Lemma process_lines_skip rl content :
  forall pending e,
    lines_from rl content pending e =
    lines_from rl
      (List.filter (fun l => expected_label (active_label extract_type l))
         content) pending e.
Proof.
  induction content as [|l content IH]; intros pending e; simpl;
    [reflexivity|].
  destruct (expected_label (active_label extract_type l)) eqn:E; simpl.
  - unfold bind. destruct (one_line rl pending l e) as [[p|x] e'];
      [apply IH|reflexivity].
  - rewrite (bind_ok _ _ _ _ _ (process_line_unexpected rl pending l e E)).
    apply IH.
Qed.

(** Person lines without an affiliation to meet only replace the
    pending person. *)
Lemma process_lines_persons_only rl content :
  Forall (fun l => active_label extract_type l <> "Complex" /\
                   active_label extract_type l <> "Affiliation") content ->
  forall u_person e,
    lines_from rl content (u_person, None) e =
    (Ok (match last_labelled extract_type "Person" content with
         | Some l => Some l
         | None => u_person
         end, None), e).
Proof.
  induction 1 as [|l content [Hc Ha] _ IH]; intros u_person e; simpl;
    [reflexivity|].
  rewrite last_labelled_cons.
  apply String.eqb_neq in Hc, Ha.
  unfold bind, process_line. rewrite Hc.
  destruct (String.eqb (active_label extract_type l) "Person") eqn:Hp.
  - unfold ret. rewrite IH.
    now destruct (last_labelled extract_type "Person" content).
  - rewrite Ha. unfold ret. rewrite IH.
    now destruct (last_labelled extract_type "Person" content).
Qed.

End Blocks.

(** X11: lines whose label is not ['Complex'], ['Person'] or
    ['Affiliation'] have no effect on a block: removing them from the
    content gives the same result and the same final state. *)
Theorem unexpected_labels_are_skipped :
  forall extract_type tagger sql_fails tx_result rl content e,
    process_block extract_type tagger sql_fails tx_result rl content e =
    process_block extract_type tagger sql_fails tx_result rl
      (List.filter (fun l => expected_label (active_label extract_type l))
         content) e.
Proof. intros. unfold process_block. apply process_lines_skip. Qed.

(** X12: a block without ['Complex'] and ['Affiliation'] lines executes
    no statement and runs no transaction, even with a store that fails:
    the state is unchanged, and the last ['Person'] line is left pending
    and discarded. *)
Theorem block_without_affiliation_writes_nothing :
  forall extract_type tagger sql_fails tx_result rl content e,
    Forall (fun l => active_label extract_type l <> "Complex" /\
                     active_label extract_type l <> "Affiliation") content ->
    process_block extract_type tagger sql_fails tx_result rl content e =
    (Ok (last_labelled extract_type "Person" content, None), e).
Proof.
  intros et tagger sql_fails tx_result rl content e H.
  unfold process_block. rewrite process_lines_persons_only by exact H.
  now destruct (last_labelled et "Person" content).
Qed.

Lemma block_without_affiliation_writes_nothing_witness :
  process_block "gold" stub_tagger alice_fails graph_ids pc_chair
    [alice; pc_chair; bob] relational_only
  = (Ok (last_labelled "gold" "Person" [alice; pc_chair; bob], None),
     relational_only).
Proof.
  apply (block_without_affiliation_writes_nothing "gold" stub_tagger
           alice_fails graph_ids pc_chair [alice; pc_chair; bob]
           relational_only).
  repeat constructor; discriminate.
Defined.

(** X13: the order of the two lines of a pair does not matter: an
    ['Affiliation'] line followed by a ['Person'] line is processed like
    the ['Person'] line followed by the ['Affiliation'] line. *)
Theorem affiliation_first_pairs_like_person_first :
  forall extract_type tagger sql_fails tx_result rl person affiliation e,
    active_label extract_type person = "Person" ->
    active_label extract_type affiliation = "Affiliation" ->
    process_block extract_type tagger sql_fails tx_result rl
      [affiliation; person] e =
    process_block extract_type tagger sql_fails tx_result rl
      [person; affiliation] e.
Proof.
  intros et tagger sql_fails tx_result rl person aff e Hp Ha.
  unfold process_block. simpl. unfold bind, process_line.
  rewrite Hp, Ha. simpl. reflexivity.
Qed.

Lemma affiliation_first_pairs_like_person_first_witness :
  process_block "gold" stub_tagger never_fails graph_ids pc_chair
    [mit; alice] relational_only =
  process_block "gold" stub_tagger never_fails graph_ids pc_chair
    [alice; mit] relational_only.
Proof.
  apply (affiliation_first_pairs_like_person_first "gold" stub_tagger
           never_fails graph_ids pc_chair alice mit relational_only);
    reflexivity.
Defined.

(** X14: a ['Complex'] line in which the tagger finds neither a person
    nor an organization (a location alone, for instance) executes no
    statement: the state is unchanged. *)
Theorem complex_without_person_and_organization :
  forall tagger sql_fails tx_result line rl e,
    PyStr.truthy (get_line_parts_flair tagger line !! "PER") = false ->
    PyStr.truthy (get_line_parts_flair tagger line !! "ORG") = false ->
    process_complex tagger sql_fails tx_result line rl e = (Ok tt, e).
Proof.
  intros tagger sql_fails tx_result line rl e Hper Horg.
  unfold process_complex, if_tag, bind, ret.
  destruct (get_line_parts_flair tagger line !! "PER") as [p|];
    [rewrite Hper|];
    (destruct (get_line_parts_flair tagger line !! "ORG") as [o|];
     [rewrite Horg|]); reflexivity.
Qed.

Lemma complex_without_person_and_organization_witness :
  process_complex stub_tagger alice_fails graph_ids
    (line 30 9 0 "Complex" "Springfield, Illinois") pc_chair relational_only
  = (Ok tt, relational_only).
Proof.
  apply (complex_without_person_and_organization stub_tagger alice_fails
           graph_ids (line 30 9 0 "Complex" "Springfield, Illinois")
           pc_chair relational_only); reflexivity.
Defined.

End PairingFacts.

(** ** LineInfoExtractor: single methods *)

Module MethodFacts.

Import LineInfoExtractor SqlFacts LineInfoExtractorProofs RespectsFacts.
Import ConferenceFacts Samples.

#[local] Arguments sql_apply : simpl never.

(** Tables a statement does not write. *)
Lemma insert_person_frame n db :
  Organizations (fst (sql_apply (InsertPerson n) db)) = Organizations db /\
  PersonOrganization (fst (sql_apply (InsertPerson n) db))
    = PersonOrganization db /\
  PersonRole (fst (sql_apply (InsertPerson n) db)) = PersonRole db.
Proof.
  unfold sql_apply. destruct (person_id_of n (Persons db)); simpl; auto.
Qed.

Lemma insert_role_frame role c pid db :
  Persons (fst (sql_apply (InsertPersonRole role c pid) db)) = Persons db /\
  Organizations (fst (sql_apply (InsertPersonRole role c pid) db))
    = Organizations db /\
  PersonOrganization (fst (sql_apply (InsertPersonRole role c pid) db))
    = PersonOrganization db.
Proof. unfold sql_apply. destruct (existsb _ _); simpl; auto. Qed.

(** Executing a statement a second time changes nothing. *)
Lemma sql_apply_idempotent q db :
  fst (sql_apply q (fst (sql_apply q db))) = fst (sql_apply q db).
Proof.
  destruct q as [name|name|name|name|oid pid|role cid pid|loc oid].
  - destruct (person_inserted name db) as [i Hi].
    unfold sql_apply at 1. now rewrite Hi.
  - reflexivity.
  - destruct (org_inserted name db) as [i Hi].
    unfold sql_apply at 1. now rewrite Hi.
  - reflexivity.
  - pose proof (affiliation_inserted oid pid db) as Hin.
    unfold sql_apply at 1.
    assert (E : existsb (pair_eqb (oid, pid))
                  (PersonOrganization
                     (fst (sql_apply (InsertPersonOrganization oid pid)
                             db))) = true).
    { apply existsb_exists. eexists. split; [exact Hin|].
      unfold pair_eqb. simpl. now rewrite !Z.eqb_refl. }
    now rewrite E.
  - pose proof (role_inserted role cid pid db) as Hin.
    unfold sql_apply at 1.
    assert (E : existsb (role_eqb (role, cid, pid))
                  (PersonRole
                     (fst (sql_apply
                             (InsertPersonRole role cid pid)
                             db))) = true).
    { apply existsb_exists. eexists. split; [exact Hin|].
      unfold role_eqb. simpl. now rewrite String.eqb_refl, !Z.eqb_refl. }
    now rewrite E.
  - unfold sql_apply. simpl. f_equal. rewrite map_map. apply map_ext.
    intros [[i n] l]. simpl.
    destruct (Z.eqb i oid) eqn:E; simpl; now rewrite E.
Qed.

Section Methods.

Variable tagger : string -> list (string * string).
Variable sql_fails : SqlStmt -> bool.
Variable tx_result : list GraphTx -> GraphTx -> Z.

(** No method assigns [sql_conf_id]. *)
Lemma add_role_rel_keeps_conf p role e :
  sql_conf_id (snd (add_role_rel sql_fails tx_result p role e)) = sql_conf_id e.
Proof.
  apply (respects_add_role_rel sql_fails tx_result
           (fun a b => sql_conf_id b = sql_conf_id a)); auto.
  intros a b c H1 H2. congruence.
Qed.

Lemma add_role_rel_unset p role e :
  sql_conf_id e = None ->
  add_role_rel sql_fails tx_result p role e = (Raise AttributeError, e).
Proof.
  intros H. unfold add_role_rel, bind, attribute. now rewrite H.
Qed.

Hypothesis no_failure : forall q, sql_fails q = false.

Lemma add_role_rel_cur p role e c :
  sql_conf_id e = Some c ->
  cur (snd (add_role_rel sql_fails tx_result p role e)) =
  fst (sql_apply (InsertPersonRole role c (snd p)) (cur e)).
Proof.
  intros Hc. unfold add_role_rel.
  unfold bind at 1, attribute at 1. rewrite Hc.
  rewrite (bind_ok _ _ _ _ _ (execute_ok sql_fails no_failure _ _)).
  unfold bind, session_present, gets, attribute, write_transaction, ret.
  unfold with_cur. simpl. destruct (session e); simpl; [|reflexivity].
  destruct (n4j_conf_id e); reflexivity.
Qed.

Lemma add_affiliation_rel_cur p o e :
  cur (snd (add_affiliation_rel sql_fails tx_result p o e)) =
  fst (sql_apply (InsertPersonOrganization (snd o) (snd p)) (cur e)).
Proof.
  unfold add_affiliation_rel.
  rewrite (bind_ok _ _ _ _ _ (execute_ok sql_fails no_failure _ _)).
  unfold bind, session_present, gets, write_transaction, ret.
  unfold with_cur. simpl. destruct (session e); reflexivity.
Qed.

Lemma add_organization_cur n e :
  cur (snd (add_organization sql_fails tx_result n e)) =
  fst (sql_apply (InsertOrganization n) (cur e)).
Proof.
  unfold add_organization.
  rewrite (bind_ok _ _ _ _ _ (execute_ok sql_fails no_failure _ _)).
  rewrite (bind_ok _ _ _ _ _ (execute_ok sql_fails no_failure _ _)).
  unfold bind, session_present, gets, write_transaction, ret, first_column,
    raise.
  unfold with_cur. simpl.
  set (db1 := fst (sql_apply (InsertOrganization n) (cur e))).
  change (sql_apply (SelectOrganizationId n) db1)
    with (db1, org_id_of n (Organizations db1)).
  simpl. destruct (org_id_of n (Organizations db1)); simpl; [|reflexivity].
  destruct (session e); reflexivity.
Qed.

Lemma update_org_loc_ok o loc e :
  LineInfoExtractor.update_org_loc sql_fails tx_result o loc e =
  (Ok tt, snd (LineInfoExtractor.update_org_loc sql_fails tx_result o loc e)) /\
  cur (snd (LineInfoExtractor.update_org_loc sql_fails tx_result o loc e)) =
  fst (sql_apply (UpdateOrganizationLocation loc (snd o)) (cur e)).
Proof.
  unfold LineInfoExtractor.update_org_loc.
  rewrite (bind_ok _ _ _ _ _ (execute_ok sql_fails no_failure _ _)).
  unfold bind, session_present, gets, write_transaction, ret.
  unfold with_cur. simpl. destruct (session e); split; reflexivity.
Qed.

End Methods.

(** X15: when the affiliation line of a pair yields no organization,
    [process_pair] still records the person and the role: it executes the
    three statements for them and returns, and the tables of
    organizations and of affiliations are as before. *)
Theorem process_pair_without_organization :
  forall tagger sql_fails tx_result person affiliation role_label e c,
    (forall q, sql_fails q = false) ->
    PyStr.truthy (get_line_parts_flair tagger affiliation !! "ORG") = false ->
    sql_conf_id e = Some c ->
    (is_Some (session e) -> is_Some (n4j_conf_id e)) ->
    exists pid e',
      process_pair tagger sql_fails tx_result person affiliation role_label e
        = (Ok tt, e') /\
      sql_log e' =
        sql_log e ++
        [InsertPerson (text person); SelectPersonId (text person);
         InsertPersonRole (text role_label) c pid] /\
      person_id_of (text person) (Persons (cur e')) = Some pid /\
      In (text role_label, c, pid) (PersonRole (cur e')) /\
      Organizations (cur e') = Organizations (cur e) /\
      PersonOrganization (cur e') = PersonOrganization (cur e).
Proof.
  intros tagger sql_fails tx_result person aff rl e c Hok Horg Hc Hn.
  destruct (add_person_ok sql_fails tx_result Hok (text person) e)
    as (gp & pid & e1 & R1 & P1 & X1 & C1).
  destruct (add_role_rel_ok sql_fails tx_result Hok (gp, pid) (text rl) e1 c)
    as (e2 & R2 & P2 & X2).
  { rewrite (ext_sql_conf _ _ _ X1). exact Hc. }
  { rewrite (ext_session _ _ _ X1), (ext_n4j_conf _ _ _ X1). exact Hn. }
  pose proof (add_role_rel_cur sql_fails tx_result Hok (gp, pid) (text rl) e1 c)
    as C2.
  rewrite R2 in C2. simpl in C2, P2.
  specialize (C2 (eq_trans (ext_sql_conf _ _ _ X1) Hc)).
  destruct (insert_person_frame (text person) (cur e)) as (Fo & Fa & _).
  destruct (insert_role_frame (text rl) c pid (cur e1)) as (Fp' & Fo' & Fa').
  exists pid, e2. split.
  - unfold process_pair. rewrite (bind_ok _ _ _ _ _ R1).
    rewrite (bind_ok _ _ _ _ _ R2). unfold if_tag, bind, ret.
    destruct (get_line_parts_flair tagger aff !! "ORG");
      [rewrite Horg|]; reflexivity.
  - split.
    { rewrite (ext_log _ _ _ X2), (ext_log _ _ _ X1), <- app_assoc.
      reflexivity. }
    split.
    { apply (le_person _ _ (ext_db _ _ _ X2)), P1. }
    split; [exact P2|].
    rewrite C2, Fo', Fa', C1, Fo, Fa. split; reflexivity.
Qed.

Lemma process_pair_without_organization_witness :
  exists pid e',
    process_pair stub_tagger never_fails graph_ids alice
      (line 31 9 0 "Affiliation" "somewhere") pc_chair relational_only
      = (Ok tt, e') /\
    sql_log e' =
      sql_log relational_only ++
      [InsertPerson (text alice); SelectPersonId (text alice);
       InsertPersonRole (text pc_chair) 7 pid] /\
    person_id_of (text alice) (Persons (cur e')) = Some pid /\
    In (text pc_chair, 7, pid) (PersonRole (cur e')) /\
    Organizations (cur e') = Organizations (cur relational_only) /\
    PersonOrganization (cur e') = PersonOrganization (cur relational_only).
Proof.
  apply (process_pair_without_organization stub_tagger never_fails graph_ids
           alice (line 31 9 0 "Affiliation" "somewhere") pc_chair
           relational_only 7); try reflexivity.
  intros [s Hs]. discriminate Hs.
Defined.

(** X16: [sql_conf_id] is only assigned by [process_conference].  On an
    extractor that has not started a conference, [process_pair] inserts
    the person and then raises [AttributeError]: the person is in the
    store, no role is recorded. *)
Theorem pair_before_conference_is_half_written :
  forall tagger sql_fails tx_result person affiliation role_label e,
    (forall q, sql_fails q = false) ->
    sql_conf_id e = None ->
    exists pid e',
      process_pair tagger sql_fails tx_result person affiliation role_label e
        = (Raise AttributeError, e') /\
      sql_log e' =
        sql_log e ++ [InsertPerson (text person); SelectPersonId (text person)] /\
      person_id_of (text person) (Persons (cur e')) = Some pid /\
      PersonRole (cur e') = PersonRole (cur e).
Proof.
  intros tagger sql_fails tx_result person aff rl e Hok Hc.
  destruct (add_person_ok sql_fails tx_result Hok (text person) e)
    as (gp & pid & e1 & R1 & P1 & X1 & C1).
  destruct (insert_person_frame (text person) (cur e)) as (_ & _ & Fr).
  exists pid, e1. split; [|split; [|split]].
  - unfold process_pair. rewrite (bind_ok _ _ _ _ _ R1).
    apply bind_raise. apply add_role_rel_unset.
    rewrite (ext_sql_conf _ _ _ X1). exact Hc.
  - exact (ext_log _ _ _ X1).
  - exact P1.
  - now rewrite C1, Fr.
Qed.

Lemma pair_before_conference_is_half_written_witness :
  exists pid e',
    process_pair stub_tagger never_fails graph_ids alice mit pc_chair
      (new_extractor empty_db false) = (Raise AttributeError, e') /\
    sql_log e' =
      sql_log (new_extractor empty_db false)
      ++ [InsertPerson (text alice); SelectPersonId (text alice)] /\
    person_id_of (text alice) (Persons (cur e')) = Some pid /\
    PersonRole (cur e') = PersonRole (cur (new_extractor empty_db false)).
Proof.
  apply (pair_before_conference_is_half_written stub_tagger never_fails
           graph_ids alice mit pc_chair (new_extractor empty_db false));
    reflexivity.
Defined.

(** X17: the two relation writes suppress duplicates: calling
    [add_role_rel], or [add_affiliation_rel], a second time with the same
    arguments leaves the relational store exactly as the first call left
    it. *)
Theorem relation_writes_are_idempotent :
  forall sql_fails tx_result person_ids org_ids role e c,
    (forall q, sql_fails q = false) ->
    sql_conf_id e = Some c ->
    cur (snd (add_role_rel sql_fails tx_result person_ids role
                (snd (add_role_rel sql_fails tx_result person_ids role e))))
    = cur (snd (add_role_rel sql_fails tx_result person_ids role e)) /\
    cur (snd (add_affiliation_rel sql_fails tx_result person_ids org_ids
                (snd (add_affiliation_rel sql_fails tx_result person_ids
                        org_ids e))))
    = cur (snd (add_affiliation_rel sql_fails tx_result person_ids org_ids e)).
Proof.
  intros sql_fails tx_result p o role e c Hok Hc. split.
  - rewrite (add_role_rel_cur sql_fails tx_result Hok p role _ c)
      by (rewrite add_role_rel_keeps_conf; exact Hc).
    rewrite (add_role_rel_cur sql_fails tx_result Hok p role e c Hc).
    apply sql_apply_idempotent.
  - rewrite !(add_affiliation_rel_cur sql_fails tx_result Hok).
    apply sql_apply_idempotent.
Qed.

Lemma relation_writes_are_idempotent_witness :
  cur (snd (add_role_rel never_fails graph_ids (-1, 1) "PC Chair"
              (snd (add_role_rel never_fails graph_ids (-1, 1) "PC Chair"
                      relational_only))))
  = cur (snd (add_role_rel never_fails graph_ids (-1, 1) "PC Chair"
                relational_only)) /\
  cur (snd (add_affiliation_rel never_fails graph_ids (-1, 1) (-1, 2)
              (snd (add_affiliation_rel never_fails graph_ids (-1, 1) (-1, 2)
                      relational_only))))
  = cur (snd (add_affiliation_rel never_fails graph_ids (-1, 1) (-1, 2)
                relational_only)).
Proof.
  apply (relation_writes_are_idempotent never_fails graph_ids (-1, 1) (-1, 2)
           "PC Chair" relational_only 7); reflexivity.
Defined.

(** X18: [add_organization] identifies organizations by the exact name:
    on a store with unique keys, two calls return the same relational
    identifier exactly when the names are the same string, and the second
    call with the same name adds no row. *)
Theorem add_organization_same_id_iff_same_name :
  forall sql_fails tx_result a b e,
    (forall q, sql_fails q = false) ->
    wf_db (cur e) ->
    exists ga ia e1 gb ib e2,
      add_organization sql_fails tx_result a e = (Ok (ga, ia), e1) /\
      add_organization sql_fails tx_result b e1 = (Ok (gb, ib), e2) /\
      (ia = ib <-> a = b) /\
      (a = b -> Organizations (cur e2) = Organizations (cur e1)).
Proof.
  intros sql_fails tx_result a b e Hok Hwf.
  destruct (add_organization_ok sql_fails tx_result Hok a e)
    as (ga & ia & e1 & R1 & P1 & X1).
  destruct (add_organization_ok sql_fails tx_result Hok b e1)
    as (gb & ib & e2 & R2 & P2 & X2).
  pose proof (add_organization_cur sql_fails tx_result Hok a e) as C1.
  pose proof (add_organization_cur sql_fails tx_result Hok b e1) as C2.
  rewrite R1 in C1. rewrite R2 in C2. simpl in C1, C2.
  exists ga, ia, e1, gb, ib, e2. split; [exact R1|]. split; [exact R2|].
  assert (Hwf2 : wf_db (cur e2)).
  { rewrite C2. apply sql_apply_wf. rewrite C1. now apply sql_apply_wf. }
  pose proof (le_org _ _ (ext_db _ _ _ X2) _ _ P1) as P1'.
  split; [split|].
  - intros <-. rewrite org_id_of_eq in P1', P2.
    destruct (id_by_name_In _ _ _ _ _ P1') as (r & Hr & Kr & Nr).
    destruct (id_by_name_In _ _ _ _ _ P2) as (r' & Hr' & Kr' & Nr').
    rewrite <- Nr, <- Nr'.
    apply (key_determines_name (fun r => fst (fst r)) (fun r => snd (fst r))
             (Organizations (cur e2))); auto.
    + apply (wf_org_ids _ Hwf2).
    + congruence.
  - intros <-. congruence.
  - intros <-. rewrite C2. unfold sql_apply. now rewrite P1.
Qed.

Lemma add_organization_same_id_iff_same_name_witness :
  exists ga ia e1 gb ib e2,
    add_organization never_fails graph_ids "MIT" relational_only
      = (Ok (ga, ia), e1) /\
    add_organization never_fails graph_ids "M.I.T." e1 = (Ok (gb, ib), e2) /\
    (ia = ib <-> "MIT" = "M.I.T.") /\
    ("MIT" = "M.I.T." -> Organizations (cur e2) = Organizations (cur e1)).
Proof.
  apply (add_organization_same_id_iff_same_name never_fails graph_ids
           "MIT" "M.I.T." relational_only).
  - reflexivity.
  - constructor; simpl; constructor.
Defined.

Section Locations.

Variables (loc : string) (oid : Z).

Abbreviation relocate :=
  (map (fun r : Z * string * option string =>
          if Z.eqb (fst (fst r)) oid then (fst r, Some loc) else r)).

Lemma location_of_update_same n rows :
  org_id_of n rows = Some oid ->
  location_of n (relocate rows) = Some (Some loc).
Proof.
  unfold org_id_of, location_of.
  induction rows as [|[[i m] l] rows IH]; simpl; [discriminate|].
  destruct (String.eqb m n) eqn:E.
  - simpl. intros [= ->]. rewrite Z.eqb_refl. simpl. now rewrite E.
  - intros H. destruct (Z.eqb i oid); simpl; rewrite E; auto.
Qed.

Lemma location_of_update_other m n rows :
  (forall r, In r rows -> fst (fst r) = oid -> snd (fst r) = n) ->
  m <> n ->
  location_of m (relocate rows) = location_of m rows.
Proof.
  unfold location_of. intros H Hne.
  induction rows as [|[[i k] l] rows IH]; simpl; [reflexivity|].
  assert (IH' := IH (fun r Hr => H r (or_intror Hr))).
  destruct (Z.eqb_spec i oid) as [->|Hi]; simpl.
  - assert (k = n) as -> by (apply (H (oid, k, l)); simpl; auto).
    destruct (String.eqb_spec n m); [congruence|exact IH'].
  - destruct (String.eqb k m); [reflexivity|exact IH'].
Qed.

Lemma relocate_keeps_owner n rows :
  (forall r, In r rows -> fst (fst r) = oid -> snd (fst r) = n) ->
  forall r, In r (relocate rows) -> fst (fst r) = oid -> snd (fst r) = n.
Proof.
  intros H r Hr. apply in_map_iff in Hr as ([[i k] l] & <- & Hin).
  specialize (H _ Hin). simpl in *.
  destruct (Z.eqb i oid); simpl; exact H.
Qed.

End Locations.

Lemma location_of_snoc m n i rows :
  m <> n -> location_of m (rows ++ [(i, n, None)]) = location_of m rows.
Proof.
  unfold location_of. intros Hne.
  induction rows as [|[[j k] l] rows IH]; simpl.
  - destruct (String.eqb_spec n m); [congruence|reflexivity].
  - destruct (String.eqb k m); [reflexivity|exact IH].
Qed.

(** X19: the location of an organization is overwritten, not merged:
    after [add_organization] and two calls of [update_org_loc] with the
    identifiers it returned, the organization has the location of the
    second call, and the location of every other organization name is
    what it was before. *)
Theorem update_org_loc_last_location_wins :
  forall sql_fails tx_result n loc1 loc2 e,
    (forall q, sql_fails q = false) ->
    wf_db (cur e) ->
    exists gid oid e1 e2 e3,
      add_organization sql_fails tx_result n e = (Ok (gid, oid), e1) /\
      LineInfoExtractor.update_org_loc sql_fails tx_result (gid, oid) loc1 e1
        = (Ok tt, e2) /\
      LineInfoExtractor.update_org_loc sql_fails tx_result (gid, oid) loc2 e2
        = (Ok tt, e3) /\
      location_of n (Organizations (cur e3)) = Some (Some loc2) /\
      (forall m, m <> n ->
         location_of m (Organizations (cur e3)) =
         location_of m (Organizations (cur e))).
Proof.
  intros sql_fails tx_result n loc1 loc2 e Hok Hwf.
  destruct (add_organization_ok sql_fails tx_result Hok n e)
    as (gid & oid & e1 & R1 & P1 & X1).
  pose proof (add_organization_cur sql_fails tx_result Hok n e) as C1.
  rewrite R1 in C1. simpl in C1.
  destruct (update_org_loc_ok sql_fails tx_result Hok (gid, oid) loc1 e1)
    as [R2 C2].
  set (e2 := snd (LineInfoExtractor.update_org_loc sql_fails tx_result
                    (gid, oid) loc1 e1)) in *.
  destruct (update_org_loc_ok sql_fails tx_result Hok (gid, oid) loc2 e2)
    as [R3 C3].
  set (e3 := snd (LineInfoExtractor.update_org_loc sql_fails tx_result
                    (gid, oid) loc2 e2)) in *.
  exists gid, oid, e1, e2, e3.
  split; [exact R1|]. split; [exact R2|]. split; [exact R3|].
  assert (Hwf1 : wf_db (cur e1)) by (rewrite C1; now apply sql_apply_wf).
  assert (Hown : forall r, In r (Organizations (cur e1)) ->
                           fst (fst r) = oid -> snd (fst r) = n).
  { intros r Hr Hk. rewrite org_id_of_eq in P1.
    destruct (id_by_name_In _ _ _ _ _ P1) as (r0 & Hr0 & K0 & N0).
    rewrite <- N0.
    apply (key_determines_name (fun r => fst (fst r)) (fun r => snd (fst r))
             (Organizations (cur e1))); auto.
    - apply (wf_org_ids _ Hwf1).
    - congruence. }
  assert (O3 : Organizations (cur e3) =
               map (fun r : Z * string * option string =>
                      if Z.eqb (fst (fst r)) oid then (fst r, Some loc2) else r)
                 (map (fun r : Z * string * option string =>
                         if Z.eqb (fst (fst r)) oid then (fst r, Some loc1)
                         else r)
                    (Organizations (cur e1)))).
  { rewrite C3, C2. reflexivity. }
  rewrite O3. split.
  - apply location_of_update_same. rewrite org_id_of_update. exact P1.
  - intros m Hm.
    rewrite (location_of_update_other loc2 oid m n)
      by (try exact Hm; now apply relocate_keeps_owner).
    rewrite (location_of_update_other loc1 oid m n) by assumption.
    rewrite C1. unfold sql_apply.
    destruct (org_id_of n (Organizations (cur e))); simpl; [reflexivity|].
    now apply location_of_snoc.
Qed.

Lemma update_org_loc_last_location_wins_witness :
  exists gid oid e1 e2 e3,
    add_organization never_fails graph_ids "CMU" with_graph_store
      = (Ok (gid, oid), e1) /\
    LineInfoExtractor.update_org_loc never_fails graph_ids (gid, oid)
      "Pittsburgh" e1 = (Ok tt, e2) /\
    LineInfoExtractor.update_org_loc never_fails graph_ids (gid, oid)
      "Doha" e2 = (Ok tt, e3) /\
    location_of "CMU" (Organizations (cur e3)) = Some (Some "Doha") /\
    (forall m, m <> "CMU" ->
       location_of m (Organizations (cur e3)) =
       location_of m (Organizations (cur with_graph_store))).
Proof.
  apply (update_org_loc_last_location_wins never_fails graph_ids "CMU"
           "Pittsburgh" "Doha" with_graph_store).
  - reflexivity.
  - constructor; simpl; repeat constructor; simpl; intuition discriminate.
Defined.

End MethodFacts.

(** ** LineInfoExtractor: the spaCy variant *)

Module SpacyFacts.

Import LineInfoExtractor Spans.

Lemma last_tagged_cons tag (ent : string * string) ents :
  last_tagged tag (ent :: ents) =
  match last_tagged tag ents with
  | Some v => Some v
  | None => if String.eqb (snd ent) tag then Some (fst ent) else None
  end.
Proof.
  unfold last_tagged, first_tagged. simpl.
  generalize (rev ents). intros r. induction r as [|x r IH]; simpl.
  - now destruct (String.eqb (snd ent) tag).
  - destruct (String.eqb (snd x) tag); [reflexivity|exact IH].
Qed.

(** The labels the tag map knows. *)
Lemma spacy_flair_tag_map_None k :
  spacy_flair_tag_map k = None <-> k <> "PERSON" /\ k <> "GPE".
Proof.
  unfold spacy_flair_tag_map.
  destruct (String.eqb_spec k "PERSON"); [intuition discriminate|].
  destruct (String.eqb_spec k "GPE"); intuition discriminate.
Qed.

Lemma spacy_loop_spec ents :
  forall lp0 : gmap string string,
    match spacy_loop ents lp0 with
    | inl k =>
        exists before ent after,
          ents = before ++ ent :: after /\ snd ent = k /\
          k <> "PERSON" /\ k <> "GPE" /\
          Forall (fun e => snd e = "PERSON" \/ snd e = "GPE") before
    | inr lp =>
        Forall (fun e => snd e = "PERSON" \/ snd e = "GPE") ents /\
        lp !! "PER" = match last_tagged "PERSON" ents with
                      | Some v => Some v
                      | None => lp0 !! "PER"
                      end /\
        lp !! "LOC" = match last_tagged "GPE" ents with
                      | Some v => Some v
                      | None => lp0 !! "LOC"
                      end /\
        lp !! "ORG" = lp0 !! "ORG"
    end.
Proof.
  induction ents as [|ent ents IH]; intros lp0; simpl.
  - repeat split. constructor.
  - rewrite !last_tagged_cons. unfold spacy_flair_tag_map.
    destruct (String.eqb_spec (snd ent) "PERSON") as [Hp|Hp].
    + specialize (IH (<["PER" := fst ent]> lp0)).
      destruct (spacy_loop ents _) as [k|lp].
      * destruct IH as (b & x & a & -> & Hk & H1 & H2 & Hb).
        exists (ent :: b), x, a. repeat split; auto.
      * destruct IH as (Hall & Hper & Hloc & Horg).
        rewrite Hp. simpl. repeat split.
        -- constructor; auto.
        -- rewrite Hper. destruct (last_tagged "PERSON" ents); [reflexivity|].
           apply lookup_insert_eq.
        -- rewrite Hloc. destruct (last_tagged "GPE" ents); [reflexivity|].
           now rewrite lookup_insert_ne.
        -- rewrite Horg. now rewrite lookup_insert_ne.
    + destruct (String.eqb_spec (snd ent) "GPE") as [Hg|Hg].
      * specialize (IH (<["LOC" := fst ent]> lp0)).
        destruct (spacy_loop ents _) as [k|lp].
        -- destruct IH as (b & x & a & -> & Hk & H1 & H2 & Hb).
           exists (ent :: b), x, a. repeat split; auto.
        -- destruct IH as (Hall & Hper & Hloc & Horg).
           simpl. repeat split.
           ++ constructor; auto.
           ++ rewrite Hper. destruct (last_tagged "PERSON" ents); [reflexivity|].
              now rewrite lookup_insert_ne.
           ++ rewrite Hloc. destruct (last_tagged "GPE" ents); [reflexivity|].
              apply lookup_insert_eq.
           ++ rewrite Horg. now rewrite lookup_insert_ne.
      * exists [], ent, ents. repeat split; auto.
Qed.

(** X20: [get_line_parts_spacy] can only return persons and places.
    It raises [KeyError] at the first entity whose spaCy label is neither
    ['PERSON'] nor ['GPE'] (an ['ORG'] entity, for instance); when it
    returns, every entity had one of these two labels, ['PER'] and ['LOC']
    hold the last person and the last place, and there is no ['ORG']
    entry. *)
Theorem get_line_parts_spacy_has_no_organization :
  forall spacy_nlp line,
    match get_line_parts_spacy spacy_nlp line with
    | inl k =>
        exists before ent after,
          spacy_nlp (text line) = before ++ ent :: after /\ snd ent = k /\
          k <> "PERSON" /\ k <> "GPE" /\
          Forall (fun e => snd e = "PERSON" \/ snd e = "GPE") before
    | inr lp =>
        Forall (fun e => snd e = "PERSON" \/ snd e = "GPE")
          (spacy_nlp (text line)) /\
        lp !! "PER" = last_tagged "PERSON" (spacy_nlp (text line)) /\
        lp !! "LOC" = last_tagged "GPE" (spacy_nlp (text line)) /\
        lp !! "ORG" = None
    end.
Proof.
  intros nlp line. unfold get_line_parts_spacy.
  pose proof (spacy_loop_spec (nlp (text line)) ∅) as H.
  destruct (spacy_loop (nlp (text line)) ∅) as [k|lp]; [exact H|].
  destruct H as (Hall & Hper & Hloc & Horg).
  rewrite Hper, Hloc, Horg. repeat split; auto.
  - now destruct (last_tagged "PERSON" _).
  - now destruct (last_tagged "GPE" _).
Qed.

(** An organization in the line makes the spaCy variant fail. *)
Example spacy_rejects_organization :
  get_line_parts_spacy
    (fun _ => [("Alice Wong", "PERSON"); ("MIT", "ORG"); ("Boston", "GPE")])
    Samples.two_persons = inl "ORG".
Proof. reflexivity. Qed.

End SpacyFacts.

(** ** API: further properties *)

Module APIMore.

Import API PyStr PyStrFacts SpaceTokens APIProofs ProviderSamples.

Lemma gscholar_loop_take authors :
  forall i n collated,
    gscholar_loop authors i n collated =
    collated ++
    map (fun author =>
           (au_id author, au_name author, [au_affiliation author],
            au_interests author))
        (firstn (Z.to_nat (n - i)) authors).
Proof.
  induction authors as [|a authors IH]; intros i n collated; simpl.
  - now rewrite firstn_nil, app_nil_r.
  - destruct (Z.ltb_spec i n).
    + rewrite IH.
      replace (Z.to_nat (n - i)) with (S (Z.to_nat (n - (i + 1)))) by lia.
      simpl. now rewrite <- app_assoc.
    + replace (Z.to_nat (n - i)) with 0%nat by lia.
      simpl. now rewrite app_nil_r.
Qed.

(** X21: [gscholar_person] returns the first [num_results] authors of
    the search, converted one by one, in the order of the search; with a
    bound of zero or less it returns nothing. *)
Theorem gscholar_person_takes_first_results :
  forall scholarly_search_author query num_results,
    gscholar_person scholarly_search_author query num_results =
    map (fun author =>
           (au_id author, au_name author, [au_affiliation author],
            au_interests author))
        (firstn (Z.to_nat num_results) (scholarly_search_author query)).
Proof.
  intros. unfold gscholar_person. rewrite gscholar_loop_take. simpl.
  now rewrite Z.sub_0_r.
Qed.



(** *** Edit distance and lowercasing *)

Lemma levenshtein_zero_iff s : forall t, levenshtein s t = 0%nat <-> s = t.
Proof.
  induction s as [|a s IH]; intros t.
  - simpl. destruct t; simpl; split; congruence.
  - destruct t as [|b t]; simpl; [split; congruence|].
    destruct (Ascii.eqb_spec a b) as [->|Hne].
    + rewrite IH. split; congruence.
    + split; [discriminate|congruence].
Qed.

Lemma editdistance_eval_zero_iff a b : editdistance_eval a b = 0 <-> a = b.
Proof.
  unfold editdistance_eval. rewrite <- levenshtein_zero_iff. lia.
Qed.

Lemma lower_char_idempotent c : lower_char (lower_char c) = lower_char c.
Proof. destruct c as [[] [] [] [] [] [] [] []]; reflexivity. Qed.

Lemma lower_char_space c : Ascii.eqb (lower_char c) " " = Ascii.eqb c " ".
Proof. destruct c as [[] [] [] [] [] [] [] []]; reflexivity. Qed.

Lemma lower_idempotent s : lower (lower s) = lower s.
Proof.
  induction s as [|c s IH]; simpl; [reflexivity|].
  now rewrite lower_char_idempotent, IH.
Qed.

Lemma lower_append a b : lower (a ++ b)%string = (lower a ++ lower b)%string.
Proof.
  induction a as [|c a IH]; [reflexivity|].
  change (String (lower_char c) (lower (a ++ b)%string)
          = String (lower_char c) (lower a ++ lower b)%string).
  now rewrite IH.
Qed.

Lemma cut_first_space_lower s :
  cut_first_space (lower s) =
  match cut_first_space s with
  | Some (first, others) => Some (lower first, lower others)
  | None => None
  end.
Proof.
  induction s as [|c s IH]; simpl; [reflexivity|].
  rewrite lower_char_space. destruct (Ascii.eqb c " "); [reflexivity|].
  rewrite IH. now destruct (cut_first_space s) as [[b a]|].
Qed.

Lemma cut_last_space_lower s :
  cut_last_space (lower s) =
  match cut_last_space s with
  | Some (others, last) => Some (lower others, lower last)
  | None => None
  end.
Proof.
  induction s as [|c s IH]; simpl; [reflexivity|].
  rewrite IH, lower_char_space.
  destruct (cut_last_space s) as [[b a]|]; [reflexivity|].
  now destruct (Ascii.eqb c " ").
Qed.

Lemma first_token_to_end_lower s :
  first_token_to_end (lower s) = lower (first_token_to_end s).
Proof.
  unfold first_token_to_end. rewrite cut_first_space_lower.
  destruct (cut_first_space s) as [[b a]|]; [|reflexivity].
  now rewrite !lower_append.
Qed.

Lemma last_token_to_front_lower s :
  last_token_to_front (lower s) = lower (last_token_to_front s).
Proof.
  unfold last_token_to_front. rewrite cut_last_space_lower.
  destruct (cut_last_space s) as [[b a]|]; [|reflexivity].
  now rewrite !lower_append.
Qed.

(** [similarity] as a minimum over the name and its two rotations. *)
Lemma similarity_unfold name1 name2 :
  similarity name1 name2 =
  Some (min3
          (editdistance_eval (lower name1) (lower name2))
          (editdistance_eval (lower (first_token_to_end name1)) (lower name2))
          (editdistance_eval (lower (last_token_to_front name1)) (lower name2))).
Proof.
  unfold similarity.
  pose proof (permute2_last_token_to_front name1) as H2.
  destruct (split " " name1) as [|first others] eqn:E.
  - now apply split_nonempty in E.
  - rewrite (permute1_first_token_to_end name1 first others E).
    now rewrite H2.
Qed.

Lemma cut_first_space_app a b :
  cut_first_space a = None ->
  cut_first_space (a ++ " " ++ b)%string = Some (a, b).
Proof.
  induction a as [|c a IH]; [reflexivity|].
  change (String c a ++ " " ++ b)%string with (String c (a ++ " " ++ b)%string).
  simpl. destruct (Ascii.eqb c " "); [discriminate|].
  destruct (cut_first_space a) as [[x y]|]; [discriminate|].
  intros _. now rewrite IH.
Qed.

Lemma cut_last_space_None s :
  cut_first_space s = None -> cut_last_space s = None.
Proof.
  induction s as [|c s IH]; simpl; [reflexivity|].
  destruct (Ascii.eqb c " "); [discriminate|].
  destruct (cut_first_space s) as [[x y]|]; [discriminate|].
  intros _. now rewrite IH.
Qed.

Lemma min3_zero_iff a b c :
  0 <= a -> 0 <= b -> 0 <= c ->
  (min3 a b c = 0 <-> a = 0 \/ b = 0 \/ c = 0).
Proof. unfold min3. lia. Qed.

(** X23: [similarity] is 0 exactly when, ignoring case, [name2] is
    [name1] itself, [name1] with its first token moved to the end, or
    [name1] with its last token moved to the front. *)
Theorem similarity_zero_iff_rotation :
  forall name1 name2,
    similarity name1 name2 = Some 0 <->
    lower name1 = lower name2 \/
    lower (first_token_to_end name1) = lower name2 \/
    lower (last_token_to_front name1) = lower name2.
Proof.
  intros name1 name2. rewrite similarity_unfold.
  rewrite <- !editdistance_eval_zero_iff.
  rewrite <- (min3_zero_iff _ _ _ (editdistance_eval_nonneg _ _)
                (editdistance_eval_nonneg _ _) (editdistance_eval_nonneg _ _)).
  split; congruence.
Qed.

(** X24: [similarity] ignores the case of both names: lowercasing
    either argument beforehand does not change the result. *)
Theorem similarity_ignores_case :
  forall name1 name2,
    similarity (lower name1) name2 = similarity name1 name2 /\
    similarity name1 (lower name2) = similarity name1 name2.
Proof.
  intros name1 name2. rewrite !similarity_unfold.
  rewrite first_token_to_end_lower, last_token_to_front_lower.
  now rewrite !lower_idempotent.
Qed.

(** X25: a two-part name matches its swapped form: when [first]
    contains no space, [similarity] of ["first rest"] and ["rest first"]
    is 0, whatever [rest] is. *)
Theorem swapped_name_has_distance_zero :
  forall first rest,
    cut_first_space first = None ->
    similarity (first ++ " " ++ rest)%string (rest ++ " " ++ first)%string
    = Some 0.
Proof.
  intros a b Ha. apply similarity_zero_iff_rotation. right. left.
  unfold first_token_to_end. now rewrite (cut_first_space_app a b Ha).
Qed.

Lemma swapped_name_has_distance_zero_witness :
  similarity ("Maria" ++ " " ++ "del Carmen")%string
    ("del Carmen" ++ " " ++ "Maria")%string = Some 0.
Proof.
  apply (swapped_name_has_distance_zero "Maria" "del Carmen"). reflexivity.
Defined.

(** X26: for a name without a space both rotations are the name
    itself, and [similarity] is the plain edit distance between the
    lowercased names. *)
Theorem single_token_similarity_is_edit_distance :
  forall name1 name2,
    cut_first_space name1 = None ->
    similarity name1 name2 =
    Some (editdistance_eval (lower name1) (lower name2)).
Proof.
  intros name1 name2 H. rewrite similarity_unfold.
  unfold first_token_to_end, last_token_to_front.
  rewrite H, (cut_last_space_None name1 H). unfold min3. f_equal. lia.
Qed.

Lemma single_token_similarity_is_edit_distance_witness :
  similarity "Madonna" "madona" =
  Some (editdistance_eval (lower "Madonna") (lower "madona")).
Proof.
  apply (single_token_similarity_is_edit_distance "Madonna" "madona").
  reflexivity.
Defined.

End APIMore.

(** ** BlockExtractor and LineInfoExtractor: how blocks end and pairs form *)

Module BlockBoundaryFacts.

Import BlockExtractor LineDictFacts BlockExtractorProofs.
Import LineInfoExtractor LineInfoExtractorProofs Samples.

Section Grouping.

Variable extract_type : string.
Variables indent_diff_thresh lnum_diff_thresh : Z.

Abbreviation step'' :=
  (group_step extract_type indent_diff_thresh lnum_diff_thresh).
Abbreviation events'' :=
  (accepted_from extract_type indent_diff_thresh lnum_diff_thresh).

(** The keys under which lines are accepted are the current role label
    and the role labels still to come. *)
Lemma accepted_under_foreign_key k lines :
  Forall (fun l => active_label extract_type l = "Role-Label" ->
                   LineDict.same_line l k = false) lines ->
  forall rl prev,
    (forall r, rl = Some r -> LineDict.same_line r k = false) ->
    accepted_under k (events'' rl prev lines) = [].
Proof.
  induction 1 as [|l lines Hl _ IH]; intros rl prev Hrl; simpl;
    [reflexivity|].
  destruct (String.eqb_spec (active_label extract_type l) "Role-Label")
    as [E|E].
  - apply IH. intros r [= <-]. now apply Hl.
  - destruct rl as [r|]; [|now apply IH].
    destruct prev as [p|]; [|now apply IH].
    destruct (within_threshold _ _ l p r); [|now apply IH].
    unfold accepted_under. simpl. rewrite (Hrl r eq_refl).
    now apply IH.
Qed.

Lemma group_lines_entries lines k :
  LineDict.get k (mapping (fold_left step'' lines group_init)) =
  entry_of (accepted_under k (events'' None None lines)).
Proof.
  now rewrite (group_fold_entries extract_type indent_diff_thresh
                 lnum_diff_thresh lines group_init []).
Qed.

End Grouping.

(** X27: a block ends at the next role label: the entry of a role
    label [k] is not changed by anything that follows a later role-label
    line, as long as [k] itself does not occur again. *)
Theorem block_ends_at_next_role_label :
  forall extract_type it lt before next rest k,
    active_label extract_type next = "Role-Label" ->
    Forall (fun l => active_label extract_type l = "Role-Label" ->
                     LineDict.same_line l k = false) (next :: rest) ->
    LineDict.get k (group extract_type it lt (before ++ next :: rest)) =
    LineDict.get k (group extract_type it lt before).
Proof.
  intros et it lt before next rest k Hnext Hfor.
  unfold group, group_lines. rewrite fold_left_app.
  rewrite (group_fold_entries et it lt (next :: rest)
             (fold_left (group_step et it lt) before group_init)
             (accepted_from et it lt None None before))
    by (intros k'; apply group_lines_entries).
  rewrite group_lines_entries, accepted_under_app.
  simpl accepted_from. apply String.eqb_eq in Hnext. rewrite Hnext.
  inversion Hfor as [|x xs Hx Hxs]; subst.
  rewrite (accepted_under_foreign_key et it lt k rest Hxs).
  - now rewrite app_nil_r.
  - intros r [= <-]. apply Hx. now apply String.eqb_eq.
Qed.

Lemma block_ends_at_next_role_label_witness :
  LineDict.get chain_rl
    (group "gold" 10 10 ([chain_rl; chain_l1] ++ organizer :: [bob; cmu])) =
  LineDict.get chain_rl (group "gold" 10 10 [chain_rl; chain_l1]).
Proof.
  apply (block_ends_at_next_role_label "gold" 10 10 [chain_rl; chain_l1]
           organizer [bob; cmu] chain_rl).
  - reflexivity.
  - repeat constructor; intros H; try reflexivity; discriminate H.
Defined.

(** X28: a pending person is replaced without a trace: when a
    ['Person'] line follows the ['Person'] line that opens a block, the
    block is processed as if the first of the two were not there. *)
Theorem repeated_person_replaces_pending :
  forall extract_type tagger sql_fails tx_result rl first second rest e,
    active_label extract_type first = "Person" ->
    active_label extract_type second = "Person" ->
    process_block extract_type tagger sql_fails tx_result rl
      (first :: second :: rest) e =
    process_block extract_type tagger sql_fails tx_result rl
      (second :: rest) e.
Proof.
  intros et tagger sql_fails tx_result rl p1 p2 rest e H1 H2.
  unfold process_block. simpl. unfold bind, process_line.
  rewrite H1, H2. simpl. reflexivity.
Qed.

Lemma repeated_person_replaces_pending_witness :
  process_block "gold" stub_tagger never_fails graph_ids pc_chair
    (alice :: bob :: [mit]) relational_only =
  process_block "gold" stub_tagger never_fails graph_ids pc_chair
    (bob :: [mit]) relational_only.
Proof.
  apply (repeated_person_replaces_pending "gold" stub_tagger never_fails
           graph_ids pc_chair alice bob [mit] relational_only); reflexivity.
Defined.

(** X29: a ['Complex'] line in which a person is found is written like
    a pair whose person is that entity and whose affiliation is the line
    itself: same statements, same transactions, same result, also when a
    write fails on the way. *)
Theorem complex_line_is_a_pair_with_itself :
  forall tagger sql_fails tx_result line person role_label per e,
    get_line_parts_flair tagger line !! "PER" = Some per ->
    per <> "" ->
    text person = per ->
    process_complex tagger sql_fails tx_result line role_label e =
    process_pair tagger sql_fails tx_result person line role_label e.
Proof.
  intros tagger sql_fails tx_result line person rl per e Hper Hne Htext.
  unfold process_complex, process_pair. rewrite Htext.
  unfold if_tag at 1. rewrite Hper.
  assert (Ht : PyStr.truthy (Some per) = true).
  { simpl. destruct (String.eqb_spec per ""); [contradiction|reflexivity]. }
  rewrite Ht. unfold bind, ret.
  destruct (add_person sql_fails tx_result per e) as [[pids|x] e1];
    [|reflexivity].
  destruct (add_role_rel sql_fails tx_result pids (text rl) e1)
    as [[u|x] e2]; [|reflexivity].
  unfold if_tag.
  destruct (get_line_parts_flair tagger line !! "ORG") as [org|];
    [|reflexivity].
  destruct (PyStr.truthy (Some org)); [|reflexivity].
  unfold bind, ret.
  destruct (add_organization sql_fails tx_result org e2) as [[oids|x] e3];
    [|reflexivity].
  destruct (get_line_parts_flair tagger line !! "LOC") as [loc|].
  - destruct (PyStr.truthy (Some loc)).
    + destruct (LineInfoExtractor.update_org_loc sql_fails tx_result oids loc e3)
        as [[u'|x] e4]; [|reflexivity].
      now destruct (add_affiliation_rel sql_fails tx_result pids oids e4)
        as [[[]|x] e5].
    + now destruct (add_affiliation_rel sql_fails tx_result pids oids e3)
        as [[[]|x] e5].
  - now destruct (add_affiliation_rel sql_fails tx_result pids oids e3)
      as [[[]|x] e5].
Qed.

Lemma complex_line_is_a_pair_with_itself_witness :
  process_complex stub_tagger alice_fails graph_ids two_persons pc_chair
    relational_only =
  process_pair stub_tagger alice_fails graph_ids
    (line 40 9 0 "Person" "Bob Lee") two_persons pc_chair relational_only.
Proof.
  apply (complex_line_is_a_pair_with_itself stub_tagger alice_fails graph_ids
           two_persons (line 40 9 0 "Person" "Bob Lee") pc_chair "Bob Lee"
           relational_only); [reflexivity|discriminate|reflexivity].
Defined.

End BlockBoundaryFacts.
